(** * Ractive-decorators-sortable: a shallow embedding of the drag-and-drop
      reordering decorator and the properties of its drag session.

    The plugin (src/Ractive-decorators-sortable.js) keeps a handful of
    module-level variables, registers five DOM listeners per decorated
    element and, on drag-enter, moves one array member with two calls of
    the host's [splice].  The plugin's functions are embedded here as
    computations in a state-and-exception monad over one [State] record that
    holds the plugin's variables, the part of the DOM the plugin touches and
    the part of the Ractive runtime it calls. *)

From stdpp Require Import gmap strings list fin_maps pretty.
From Stdlib Require Import ZArith Ascii.

Local Open Scope string_scope.
Local Open Scope Z_scope.

(** ** JavaScript values *)

(** The values the plugin handles: decorator arguments given in a template
    and the members of the host's data.  Numbers are integers here (NaN and
    fractions do not occur in keypaths or indices); a numeral that is no
    double stands for the double nearest to it. *)
#[warnings="-register-all"]
Inductive value : Type :=
| VUndefined
| VNull
| VBool (b : bool)
| VNum (n : Z)
| VStr (s : string)
| VArr (items : list value)
| VObj (fields : list (string * value)).

(** ToBoolean. *)
Definition truthy (v : value) : bool :=
  match v with
  | VUndefined | VNull => false
  | VBool b => b
  | VNum n => negb (Z.eqb n 0)
  | VStr s => negb (String.eqb s "")
  | VArr _ | VObj _ => true
  end.

(** [a || b]. *)
Definition js_or (a b : value) : value := if truthy a then a else b.

(** [v != null]: neither [null] nor [undefined]. *)
Definition not_nullish (v : value) : bool :=
  match v with
  | VUndefined | VNull => false
  | _ => true
  end.

(** [Array.isArray]. *)
Definition Array_isArray (v : value) : bool :=
  match v with
  | VArr _ => true
  | _ => false
  end.

(** The number a numeral of the model stands for: the double nearest to
    it, ties going to the even mantissa.  Up to 2^53 every integer is a
    double. *)
Definition to_double (m : Z) : Z :=
  if m <? 2 ^ 53 then m
  else
    let shift := Z.log2 m - 52 in
    let q := Z.shiftr m shift in
    let rest := m - Z.shiftl q shift in
    let half := Z.shiftl 1 (shift - 1) in
    let up := (half <? rest) || (Z.eqb rest half && Z.odd q) in
    Z.shiftl (if up then q + 1 else q) shift.

Definition decimal_digits (x : Z) : Z :=
  Z.of_nat (String.length (pretty x)).

(** The decimal JavaScript prints for a positive double [x] that is an
    integer: of the decimals with the fewest significant digits that still
    read back as [x], the one nearest to [x]. *)
Definition shortest_decimal (x : Z) : Z :=
  let n := decimal_digits x in
  let candidate (k : Z) : option Z :=
    let e := n - k in
    if e <=? 0 then Some x
    else
      let p := 10 ^ e in
      let lo := (x / p) * p in
      let hi := lo + p in
      let ok_lo := Z.eqb (to_double lo) x in
      let ok_hi := Z.eqb (to_double hi) x in
      if ok_lo && ok_hi then
        if x - lo <? hi - x then Some lo
        else if hi - x <? x - lo then Some hi
        else if Z.even (lo / p) then Some lo else Some hi
      else if ok_lo then Some lo
      else if ok_hi then Some hi
      else None in
  default x
    (List.find (λ _, true)
       (omap candidate (Z.of_nat <$> seq 1 17))).

Fixpoint strip_zeros (rev_digits : list ascii) : list ascii :=
  match rev_digits with
  | c :: r => if Ascii.eqb c "0" then strip_zeros r else rev_digits
  | [] => []
  end.

(** Number::toString for the integers: plain decimal below 10^21, the
    exponent form from there on, [Infinity] past the largest double. *)
Definition number_to_string (n : Z) : string :=
  let x := to_double (Z.abs n) in
  let sign := if n <? 0 then "-" else "" in
  if 2 ^ 1024 <=? x then sign +:+ "Infinity"
  else
    let v := shortest_decimal x in
    if v <? 10 ^ 21 then sign +:+ pretty v
    else
      let digits := String.list_ascii_of_string (pretty v) in
      let exponent := pretty (decimal_digits v - 1) in
      match List.rev (strip_zeros (List.rev digits)) with
      | [] => sign +:+ "0"
      | [d] => sign +:+ String d ("e+" +:+ exponent)
      | d :: rest =>
          sign +:+ String d ("." +:+ String.string_of_list_ascii rest +:+ "e+" +:+ exponent)
      end.

(** ToString, as applied when a value is stored in [dataset] or handed to
    [querySelector]. *)
Fixpoint ToString (v : value) : string :=
  match v with
  | VUndefined => "undefined"
  | VNull => "null"
  | VBool true => "true"
  | VBool false => "false"
  | VNum n => number_to_string n
  | VStr s => s
  | VArr items =>
      (fix join (l : list value) : string :=
         match l with
         | [] => ""
         | x :: r =>
             let sx := match x with
                       | VUndefined | VNull => ""
                       | _ => ToString x
                       end in
             match r with
             | [] => sx
             | _ :: _ => sx +:+ "," +:+ join r
             end
         end) items
  | VObj _ => "[object Object]"
  end.

(** ** Keypaths *)

(** [Ractive.splitKeypath]: the segments between the dots of a keypath
    (escaped dots are not part of this model).  The result is never
    empty. *)
Fixpoint splitKeypath (keypath : string) : list string :=
  match keypath with
  | EmptyString => [EmptyString]
  | String c rest =>
      if Ascii.eqb c "."
      then EmptyString :: splitKeypath rest
      else match splitKeypath rest with
           | seg :: segs => String c seg :: segs
           | [] => [String c EmptyString]
           end
  end.

(** [array[array.length - 1]]; [None] stands for [undefined]. *)
Definition last_segment (array : list string) : option string :=
  array !! (length array - 1)%nat.

Definition digit_of (c : ascii) : option Z :=
  let n := Z.of_N (N_of_ascii c) in
  if (48 <=? n) && (n <=? 57) then Some (n - 48) else None.

Fixpoint parse_digits (s : string) (acc : Z) : option Z :=
  match s with
  | EmptyString => Some acc
  | String c r =>
      match digit_of c with
      | Some d => parse_digits r (10 * acc + d)
      | None => None
      end
  end.

(** A non-empty run of decimal digits. *)
Definition parse_nat (s : string) : option Z :=
  match s with
  | EmptyString => None
  | _ => parse_digits s 0
  end.

(** An array index used as a property key: canonical decimal only
    (["2"] is the third member, ["02"] is no member). *)
Definition array_index (key : string) : option nat :=
  match key with
  | String "0" (String _ _) => None
  | _ => Z.to_nat <$> parse_nat key
  end.

(** The number a splice index taken from a keypath stands for, [None]
    being NaN: an optionally signed run of decimal digits is its value,
    the empty string is 0, and so is [undefined], which the host replaces
    by 0.  What is not a number is NaN.  (Numbers spelled with a fraction,
    an exponent, a radix prefix or white space around them are not
    segments of the keypaths a page renders elements from; they are NaN
    here.) *)
Definition ToNumber (seg : option string) : option Z :=
  match seg with
  | None => Some 0
  | Some EmptyString => Some 0
  | Some (String "-" r) => Z.opp <$> parse_nat r
  | Some (String "+" r) => parse_nat r
  | Some s => parse_nat s
  end.

(** [Array.prototype.splice(start, deleteCount, ...items)] on a list: the
    array after the call.  A negative start counts from the end, and both
    arguments are clamped to the array. *)
Definition js_splice {A : Type} (l : list A) (start deleteCount : Z)
    (items : list A) : list A :=
  let len := Z.of_nat (length l) in
  let s := if start <? 0 then Z.max (len + start) 0 else Z.min start len in
  let dc := Z.min (Z.max deleteCount 0) (len - s) in
  (take (Z.to_nat s) l ++ items ++ drop (Z.to_nat (s + dc)) l)%list.

(** What [ractive.splice] makes of the array: the host cuts the count down
    to what the array holds from the index on and then calls
    [Array.prototype.splice].  For an index that is a number this is
    [splice] itself; for one that is not, the count becomes NaN, so nothing
    is removed, and what is added goes to the front. *)
Definition host_splice (items : list value) (index : option string)
    (removeCount : Z) (add : list value) : list value :=
  match ToNumber index with
  | Some i => js_splice items i removeCount add
  | None => js_splice items 0 0 add
  end.

(** ** The host's data *)

Fixpoint assoc_get (k : string) (fs : list (string * value)) : option value :=
  match fs with
  | [] => None
  | (k', v) :: r => if String.eqb k k' then Some v else assoc_get k r
  end.

Fixpoint assoc_set (k : string) (x : value) (fs : list (string * value))
    : list (string * value) :=
  match fs with
  | [] => [(k, x)]
  | (k', v) :: r =>
      if String.eqb k k' then (k, x) :: r else (k', v) :: assoc_set k x r
  end.

(** One step down the data: the member of [v] under [key].  An array
    answers its members and its [length], an object its fields.  (What a
    value inherits, and the properties of a string, are not among the
    values of this model and read [undefined].) *)
Definition member (v : value) (key : string) : value :=
  match v with
  | VArr items =>
      match array_index key with
      | Some i => default VUndefined (items !! i)
      | None =>
          if String.eqb key "length" then VNum (Z.of_nat (length items))
          else VUndefined
      end
  | VObj fields => default VUndefined (assoc_get key fields)
  | _ => VUndefined
  end.

(** The value at a path of segments; an empty segment stays in place, as the
    host's model lookup does. *)
Fixpoint get_at (v : value) (path : list string) : value :=
  match path with
  | [] => v
  | key :: rest =>
      if String.eqb key "" then get_at v rest else get_at (member v key) rest
  end.

(** The data with the value at a path replaced. *)
Fixpoint set_at (v : value) (path : list string) (x : value) : value :=
  match path with
  | [] => x
  | key :: rest =>
      if String.eqb key "" then set_at v rest x
      else match v with
           | VArr items =>
               match array_index key with
               | Some i =>
                   match items !! i with
                   | Some y => VArr (<[i := set_at y rest x]> items)
                   | None => v
                   end
               | None => v
               end
           | VObj fields =>
               VObj (assoc_set key (set_at (member v key) rest x) fields)
           | _ => v
           end
  end.

(** ** The state the plugin runs in *)

(** DOM elements and Ractive instances are known by their identity. *)
Definition Node : Type := nat.
Definition Owner : Type := nat.

(** What the plugin reads of [Ractive.getContext(node)]: the owning instance
    ([context.ractive]), the keypath of the context ([context.resolve()])
    and the keypath of its parent ([context.resolve('../')]). *)
Record Ctx : Type := {
  c_ractive : Owner;
  c_resolve : string;
  c_resolve_up : string
}.

(** An entry of [nodeMapping]; [draggableNode] is [None] when
    [querySelector] found nothing ([null]). *)
Record Mapping : Type := {
  nodeToMove : Node;
  draggableNode : option Node
}.

Inductive event_type : Type :=
| Dragstart | Dragend | Dragenter | Dragover | Drop.

(** The four listener functions of the plugin. *)
Inductive handler : Type :=
| H_dragstartHandler | H_dragenterHandler | H_removeTargetClass | H_preventDefault.

#[global] Instance event_type_eq_dec : EqDecision event_type.
Proof. solve_decision. Defined.
#[global] Instance handler_eq_dec : EqDecision handler.
Proof. solve_decision. Defined.

(** The calls that leave the plugin: mutations of the host's data,
    notifications, and the methods called on the native event. *)
Inductive call : Type :=
| Splice (r : Owner) (keypath : string) (index : option string)
         (removeCount : Z) (add : list value)
| Fire (r : Owner) (name : value) (context : Ctx) (payload : list string)
| SetData (format : string) (payload : value)
| DropEffect (effect : string)
| PreventDefault
| StopPropagation.

(** What can be thrown: a [TypeError] of the engine, the two exceptions of
    the DOM ([SyntaxError] for a selector that does not parse or an empty
    class token, [InvalidCharacterError] for a class token with white space
    in it), an [Error] made by the plugin, or an error raised inside the host
    runtime. *)
Inductive exn : Type :=
| TypeError
| SyntaxError
| InvalidCharacterError
| Error (message : string)
| HostError.

(** A splice as the host's renderer sees it: the instance, the keypath,
    the array as it was, and the arguments of the call. *)
Record Splicing : Type := {
  sp_owner : Owner;
  sp_keypath : string;
  sp_items : list value;
  sp_index : option string;
  sp_count : Z;
  sp_add : list value
}.

(** What the host does to the elements of the page when it renders again
    after a splice: the decorator of an element that goes is torn down, an
    element that comes is given what [querySelector] finds inside it and is
    decorated, and an element gets a new context or loses the one it
    had. *)
Inductive render_step : Type :=
| Detached (draggable_node : Node)
| Created (node : Node) (selector : string) (found : Node)
| Attached (node : Node) (draggableElSelector targetClass name : value)
| Context (n : Node) (c : option Ctx).

(** The renderer of the host is what its templates make of a splice: from
    the splice, the contexts of the elements and a node not yet in use, the
    steps it takes. *)
Definition Renderer : Type :=
  Splicing → gmap Node Ctx → Node → list render_step.

Record State : Type := {
  (** the plugin's module-level variables; [None] is [undefined] *)
  ractive : option Owner;
  sourceKeypath : option string;
  sourceArray : option string;
  nodeMapping : list Mapping;
  eventNameToFire : value;
  (** the DOM *)
  targetClass_of : gmap Node string;        (* node.dataset.targetClass *)
  classList : gmap Node (list string);
  draggable : gmap Node bool;
  listeners : gmap Node (list (event_type * handler));
  querySelector : gmap (Node * string) Node;
  invalidSelectors : gset string;
  (** the Ractive runtime *)
  data : gmap Owner value;
  getContext : gmap Node Ctx;
  renderer : Renderer;
  (** the calls issued so far, oldest first *)
  calls : list call
}.

Definition with_ractive (x : option Owner) (st : State) : State :=
  {| ractive := x; sourceKeypath := sourceKeypath st;
     sourceArray := sourceArray st; nodeMapping := nodeMapping st;
     eventNameToFire := eventNameToFire st;
     targetClass_of := targetClass_of st; classList := classList st;
     draggable := draggable st; listeners := listeners st;
     querySelector := querySelector st;
     invalidSelectors := invalidSelectors st; data := data st;
     getContext := getContext st; renderer := renderer st;
     calls := calls st |}.

Definition with_sourceKeypath (x : option string) (st : State) : State :=
  {| ractive := ractive st; sourceKeypath := x;
     sourceArray := sourceArray st; nodeMapping := nodeMapping st;
     eventNameToFire := eventNameToFire st;
     targetClass_of := targetClass_of st; classList := classList st;
     draggable := draggable st; listeners := listeners st;
     querySelector := querySelector st;
     invalidSelectors := invalidSelectors st; data := data st;
     getContext := getContext st; renderer := renderer st;
     calls := calls st |}.

Definition with_sourceArray (x : option string) (st : State) : State :=
  {| ractive := ractive st; sourceKeypath := sourceKeypath st;
     sourceArray := x; nodeMapping := nodeMapping st;
     eventNameToFire := eventNameToFire st;
     targetClass_of := targetClass_of st; classList := classList st;
     draggable := draggable st; listeners := listeners st;
     querySelector := querySelector st;
     invalidSelectors := invalidSelectors st; data := data st;
     getContext := getContext st; renderer := renderer st;
     calls := calls st |}.

Definition with_nodeMapping (x : list Mapping) (st : State) : State :=
  {| ractive := ractive st; sourceKeypath := sourceKeypath st;
     sourceArray := sourceArray st; nodeMapping := x;
     eventNameToFire := eventNameToFire st;
     targetClass_of := targetClass_of st; classList := classList st;
     draggable := draggable st; listeners := listeners st;
     querySelector := querySelector st;
     invalidSelectors := invalidSelectors st; data := data st;
     getContext := getContext st; renderer := renderer st;
     calls := calls st |}.

Definition with_eventNameToFire (x : value) (st : State) : State :=
  {| ractive := ractive st; sourceKeypath := sourceKeypath st;
     sourceArray := sourceArray st; nodeMapping := nodeMapping st;
     eventNameToFire := x;
     targetClass_of := targetClass_of st; classList := classList st;
     draggable := draggable st; listeners := listeners st;
     querySelector := querySelector st;
     invalidSelectors := invalidSelectors st; data := data st;
     getContext := getContext st; renderer := renderer st;
     calls := calls st |}.

Definition with_targetClass_of (x : gmap Node string) (st : State) : State :=
  {| ractive := ractive st; sourceKeypath := sourceKeypath st;
     sourceArray := sourceArray st; nodeMapping := nodeMapping st;
     eventNameToFire := eventNameToFire st;
     targetClass_of := x; classList := classList st;
     draggable := draggable st; listeners := listeners st;
     querySelector := querySelector st;
     invalidSelectors := invalidSelectors st; data := data st;
     getContext := getContext st; renderer := renderer st;
     calls := calls st |}.

Definition with_classList (x : gmap Node (list string)) (st : State) : State :=
  {| ractive := ractive st; sourceKeypath := sourceKeypath st;
     sourceArray := sourceArray st; nodeMapping := nodeMapping st;
     eventNameToFire := eventNameToFire st;
     targetClass_of := targetClass_of st; classList := x;
     draggable := draggable st; listeners := listeners st;
     querySelector := querySelector st;
     invalidSelectors := invalidSelectors st; data := data st;
     getContext := getContext st; renderer := renderer st;
     calls := calls st |}.

Definition with_draggable (x : gmap Node bool) (st : State) : State :=
  {| ractive := ractive st; sourceKeypath := sourceKeypath st;
     sourceArray := sourceArray st; nodeMapping := nodeMapping st;
     eventNameToFire := eventNameToFire st;
     targetClass_of := targetClass_of st; classList := classList st;
     draggable := x; listeners := listeners st;
     querySelector := querySelector st;
     invalidSelectors := invalidSelectors st; data := data st;
     getContext := getContext st; renderer := renderer st;
     calls := calls st |}.

Definition with_listeners (x : gmap Node (list (event_type * handler)))
    (st : State) : State :=
  {| ractive := ractive st; sourceKeypath := sourceKeypath st;
     sourceArray := sourceArray st; nodeMapping := nodeMapping st;
     eventNameToFire := eventNameToFire st;
     targetClass_of := targetClass_of st; classList := classList st;
     draggable := draggable st; listeners := x;
     querySelector := querySelector st;
     invalidSelectors := invalidSelectors st; data := data st;
     getContext := getContext st; renderer := renderer st;
     calls := calls st |}.

Definition with_data (x : gmap Owner value) (st : State) : State :=
  {| ractive := ractive st; sourceKeypath := sourceKeypath st;
     sourceArray := sourceArray st; nodeMapping := nodeMapping st;
     eventNameToFire := eventNameToFire st;
     targetClass_of := targetClass_of st; classList := classList st;
     draggable := draggable st; listeners := listeners st;
     querySelector := querySelector st;
     invalidSelectors := invalidSelectors st; data := x;
     getContext := getContext st; renderer := renderer st;
     calls := calls st |}.

Definition with_calls (x : list call) (st : State) : State :=
  {| ractive := ractive st; sourceKeypath := sourceKeypath st;
     sourceArray := sourceArray st; nodeMapping := nodeMapping st;
     eventNameToFire := eventNameToFire st;
     targetClass_of := targetClass_of st; classList := classList st;
     draggable := draggable st; listeners := listeners st;
     querySelector := querySelector st;
     invalidSelectors := invalidSelectors st; data := data st;
     getContext := getContext st; renderer := renderer st; calls := x |}.

Definition with_querySelector (x : gmap (Node * string) Node) (st : State)
    : State :=
  {| ractive := ractive st; sourceKeypath := sourceKeypath st;
     sourceArray := sourceArray st; nodeMapping := nodeMapping st;
     eventNameToFire := eventNameToFire st;
     targetClass_of := targetClass_of st; classList := classList st;
     draggable := draggable st; listeners := listeners st;
     querySelector := x;
     invalidSelectors := invalidSelectors st; data := data st;
     getContext := getContext st; renderer := renderer st;
     calls := calls st |}.

Definition with_getContext (x : gmap Node Ctx) (st : State) : State :=
  {| ractive := ractive st; sourceKeypath := sourceKeypath st;
     sourceArray := sourceArray st; nodeMapping := nodeMapping st;
     eventNameToFire := eventNameToFire st;
     targetClass_of := targetClass_of st; classList := classList st;
     draggable := draggable st; listeners := listeners st;
     querySelector := querySelector st;
     invalidSelectors := invalidSelectors st; data := data st;
     getContext := x; renderer := renderer st;
     calls := calls st |}.

Definition with_renderer (x : Renderer) (st : State) : State :=
  {| ractive := ractive st; sourceKeypath := sourceKeypath st;
     sourceArray := sourceArray st; nodeMapping := nodeMapping st;
     eventNameToFire := eventNameToFire st;
     targetClass_of := targetClass_of st; classList := classList st;
     draggable := draggable st; listeners := listeners st;
     querySelector := querySelector st;
     invalidSelectors := invalidSelectors st; data := data st;
     getContext := getContext st; renderer := x;
     calls := calls st |}.

(** ** Computations: state threaded through, exceptions kept apart *)

Inductive result (A : Type) : Type :=
| Ok (a : A)
| Throw (e : exn).
Arguments Ok {A} a.
Arguments Throw {A} e.

(** A thrown exception keeps the state reached so far: JavaScript undoes
    nothing. *)
Definition M (A : Type) : Type := State → result A * State.

#[global] Instance M_ret : MRet M := λ A a st, (Ok a, st).
#[global] Instance M_bind : MBind M := λ A B f m st,
  match m st with
  | (Ok a, st') => f a st'
  | (Throw e, st') => (Throw e, st')
  end.

Definition gets {A : Type} (f : State → A) : M A := λ st, (Ok (f st), st).
Definition modify (f : State → State) : M unit := λ st, (Ok tt, f st).
Definition throw {A : Type} (e : exn) : M A := λ st, (Throw e, st).

(** Reading a property of [undefined] or [null]. *)
Definition defined {A : Type} (o : option A) : M A :=
  match o with
  | Some a => mret a
  | None => throw TypeError
  end.

Definition log (c : call) : M unit :=
  modify (λ st, with_calls (calls st ++ [c])%list st).

(** ** The DOM operations the plugin uses *)

(** [node.dataset.targetClass = v]. *)
Definition dataset_set_targetClass (n : Node) (v : value) : M unit :=
  modify (λ st, with_targetClass_of (<[n := ToString v]> (targetClass_of st)) st).

(** [node.dataset.targetClass] as a class token: an attribute that was never
    set reads [undefined], which [classList] turns into a string. *)
Definition dataset_targetClass (n : Node) : M string :=
  gets (λ st, default "undefined" (targetClass_of st !! n)).

Definition classes (st : State) (n : Node) : list string :=
  default [] (classList st !! n).

(** What [node.classList.add(token)] and [node.classList.remove(token)] do
    to the state once the token has passed their check. *)
Definition add_class (n : Node) (token : string) (st : State) : State :=
  if bool_decide (token ∈ classes st n) then st
  else with_classList (<[n := (classes st n ++ [token])%list]> (classList st)) st.

Definition remove_class (n : Node) (token : string) (st : State) : State :=
  if bool_decide (token ∈ classes st n)
  then with_classList
         (<[n := filter (λ t, t ≠ token) (classes st n)]> (classList st)) st
  else st.

(** ASCII white space, as the DOM defines it: tab, line feed, form feed,
    carriage return and space. *)
Definition ascii_whitespace (c : ascii) : bool :=
  let n := Z.of_N (N_of_ascii c) in
  Z.eqb n 9 || Z.eqb n 10 || Z.eqb n 12 || Z.eqb n 13 || Z.eqb n 32.

Fixpoint has_whitespace (s : string) : bool :=
  match s with
  | EmptyString => false
  | String c r => ascii_whitespace c || has_whitespace r
  end.

(** The check [classList.add] and [classList.remove] make on a token before
    they touch the list: the exception they throw, if any. *)
Definition token_error (token : string) : option exn :=
  if String.eqb token "" then Some SyntaxError
  else if has_whitespace token then Some InvalidCharacterError
  else None.

Definition classList_add (n : Node) (token : string) : M unit :=
  match token_error token with
  | Some e => throw e
  | None => modify (add_class n token)
  end.

Definition classList_remove (n : Node) (token : string) : M unit :=
  match token_error token with
  | Some e => throw e
  | None => modify (remove_class n token)
  end.

Definition is_digit (c : ascii) : bool :=
  let n := Z.of_N (N_of_ascii c) in (48 <=? n) && (n <=? 57).

(** Selectors no document takes: the empty string, and a selector that
    starts with a digit or with a hyphen that a digit or nothing follows
    (what ToString makes of a number is one of these). *)
Definition malformed_selector (s : string) : bool :=
  match s with
  | EmptyString => true
  | String c r =>
      is_digit c ||
      (Ascii.eqb c "-" &&
       match r with
       | EmptyString => true
       | String d _ => is_digit d
       end)
  end.

(** The selectors the DOM refuses to parse: the malformed ones above and,
    for the rest of the selector grammar, the ones the state lists. *)
Definition selector_refused (st : State) (s : string) : bool :=
  malformed_selector s || bool_decide (s ∈ invalidSelectors st).

(** [node.querySelector(selector)]: a [SyntaxError] for a selector that
    does not parse; otherwise the first match inside the node, [None]
    ([null]) when there is none. *)
Definition node_querySelector (n : Node) (selector : string) : M (option Node) :=
  bad ← gets (λ st, selector_refused st selector);
  if bad : bool then @throw (option Node) SyntaxError
  else gets (λ st, querySelector st !! (n, selector)).

Definition listeners_on (st : State) (n : Node) : list (event_type * handler) :=
  default [] (listeners st !! n).

(** [node.addEventListener(type, listener, false)], as a change of the
    state: a listener that is already registered for the type is not
    registered twice. *)
Definition add_listener (n : Node) (ty : event_type) (h : handler) (st : State)
    : State :=
  if bool_decide ((ty, h) ∈ listeners_on st n) then st
  else with_listeners (<[n := (listeners_on st n ++ [(ty, h)])%list]> (listeners st)) st.

(** [node.removeEventListener(type, listener, false)]. *)
Definition remove_listener (n : Node) (ty : event_type) (h : handler) (st : State)
    : State :=
  if bool_decide ((ty, h) ∈ listeners_on st n)
  then with_listeners
         (<[n := filter (λ l, l ≠ (ty, h)) (listeners_on st n)]> (listeners st)) st
  else st.

Definition addEventListener (n : Node) (ty : event_type) (h : handler) : M unit :=
  modify (add_listener n ty h).

Definition removeEventListener (n : Node) (ty : event_type) (h : handler) : M unit :=
  modify (remove_listener n ty h).

(** ** The Ractive operations the plugin uses *)

(** Ractive is the plugin's host and no part of its source.  Its operations
    are modelled here as far as the plugin uses them: contexts of elements,
    reading a keypath, firing an event and, further down, splicing the
    array at a keypath. *)

(** [Ractive.getContext(node)]; [None] when the node has no context. *)
Definition Ractive_getContext (n : Node) : M (option Ctx) :=
  gets (λ st, getContext st !! n).

(** An [undefined] keypath addresses the root, like the empty keypath. *)
Definition keypath_arg (k : option string) : string := default "" k.

Definition root (st : State) (r : Owner) : value :=
  default VUndefined (data st !! r).

(** The value instance [r] holds at a keypath. *)
Definition value_at (st : State) (r : Owner) (keypath : string) : value :=
  get_at (root st r) (splitKeypath keypath).

(** [ractive.get(keypath)]. *)
Definition ractive_get (r : Owner) (keypath : string) : M value :=
  gets (λ st, value_at st r keypath).

(** [context.get('../')]: the value at the context's parent keypath. *)
Definition context_get_up (c : Ctx) : M value :=
  ractive_get (c_ractive c) (c_resolve_up c).

(** [ractive.fire(name, context, payload)]. *)
Definition ractive_fire (r : Owner) (name : value) (c : Ctx)
    (payload : list string) : M unit :=
  log (Fire r name c payload).

(** ** The plugin: the decorator *)

Definition errorMessage : string :=
  "The sortable decorator only works with elements that correspond to array members".

Definition getNodeToMove (draggable_node : Node) : M Node :=
  item ← gets (λ st,
    List.find (λ item, bool_decide (draggableNode item = Some draggable_node))
              (nodeMapping st));
  found ← defined item;
  mret (nodeToMove found).

(** [sortable(node, draggableElSelector, targetClass, _eventNameToFire)].
    The result is the node the returned [teardown] closes over: the
    draggable node.  When a selector is given and does not parse,
    [querySelector] throws before anything is stored.  When it parses and
    matches nothing, the draggable node is [null] and setting [draggable]
    on it throws, after the mapping, the class name and the event name have
    been stored. *)
Definition sortable (node : Node) (draggableElSelector targetClass
    _eventNameToFire : value) : M Node :=
  draggable_node ←
    (if not_nullish draggableElSelector
     then node_querySelector node (ToString draggableElSelector)
     else mret (Some node));
  let node_to_move := node in
  modify (λ st,
    with_nodeMapping
      (nodeMapping st ++
         [{| nodeToMove := node_to_move; draggableNode := draggable_node |}])%list
      st);;
  dataset_set_targetClass node_to_move (js_or targetClass (VStr "droptarget"));;
  modify (with_eventNameToFire _eventNameToFire);;
  node ← defined draggable_node;
  modify (λ st, with_draggable (<[node := true]> (draggable st)) st);;
  addEventListener node Dragstart H_dragstartHandler;;
  addEventListener node Dragend H_removeTargetClass;;
  addEventListener node Dragenter H_dragenterHandler;;
  addEventListener node Dragover H_preventDefault;;
  addEventListener node Drop H_removeTargetClass;;
  mret node.

(** The [teardown] method of the object [sortable] returned, for the node
    it closed over. *)
Definition teardown (node : Node) : M unit :=
  removeEventListener node Dragstart H_dragstartHandler;;
  removeEventListener node Dragend H_removeTargetClass;;
  removeEventListener node Dragenter H_dragenterHandler;;
  removeEventListener node Dragover H_preventDefault;;
  removeEventListener node Drop H_removeTargetClass.

(** ** The host splices and renders again *)

(** A node no part of the state knows. *)
Definition fresh (st : State) : Node :=
  S (max_list
       ((map_to_list (getContext st)).*1 ++
        (nodeToMove <$> nodeMapping st) ++
        omap draggableNode (nodeMapping st))).

(** One step of the renderer.  The host calls the [teardown] it was given
    for an element that goes, and [sortable] for an element that comes,
    from inside [splice]: the plugin is entered again while its listener
    waits for [splice] to return.  (A decorator that throws here would make
    [splice] throw as well; the model takes the state the decorator leaves
    and goes on, so that its renderers are those whose rendering
    succeeds.) *)
Definition render_one (s : render_step) (st : State) : State :=
  match s with
  | Detached h => (teardown h st).2
  | Created node selector found =>
      with_querySelector (<[(node, selector) := found]> (querySelector st)) st
  | Attached node draggableElSelector targetClass name =>
      (sortable node draggableElSelector targetClass name st).2
  | Context n c => with_getContext (partial_alter (λ _, c) n (getContext st)) st
  end.

Definition run_render (steps : list render_step) (st : State) : State :=
  foldl (λ s step, render_one step s) st steps.

(** The host renders again after a splice. *)
Definition render (sp : Splicing) : M unit :=
  modify (λ st, run_render (renderer st sp (getContext st) (fresh st)) st).

(** [ractive.splice(keypath, index, removeCount, ...add)]: the array at the
    keypath is spliced in place and the host renders again before the call
    returns; the host raises when what is at the keypath is no array.  (The
    model covers the splices of an array that is there: where nothing is
    stored the host would start a new array, which the statements below
    exclude.) *)
Definition ractive_splice (r : Owner) (keypath : string) (index : option string)
    (removeCount : Z) (add : list value) : M unit :=
  log (Splice r keypath index removeCount add);;
  v ← ractive_get r keypath;
  match v with
  | VArr items =>
      modify (λ st,
        with_data
          (<[r := set_at (root st r) (splitKeypath keypath)
                    (VArr (host_splice items index removeCount add))]>
             (data st)) st);;
      render {| sp_owner := r; sp_keypath := keypath; sp_items := items;
                sp_index := index; sp_count := removeCount; sp_add := add |}
  | _ => throw HostError
  end.

(** ** The plugin: the listeners *)

Definition dragstartHandler (this : Node) : M unit :=
  me ← getNodeToMove this;
  context ← Ractive_getContext me;
  c ← defined context;
  modify (with_sourceKeypath (Some (c_resolve c)));;
  modify (with_sourceArray (Some (c_resolve_up c)));;
  parent ← context_get_up c;
  if negb (Array_isArray parent) then throw (Error errorMessage)
  else
    log (SetData "foo" (VBool true));;
    modify (with_ractive (Some (c_ractive c)));;
    log StopPropagation.

Definition dragenterHandler (this : Node) : M unit :=
  me ← getNodeToMove this;
  log PreventDefault;;
  context ← Ractive_getContext me;
  c ← defined context;
  owner ← gets ractive;
  if bool_decide (Some (c_ractive c) ≠ owner) then mret tt
  else
    let targetKeypath := c_resolve c in
    let targetArray := c_resolve_up c in
    source_array ← gets sourceArray;
    if bool_decide (Some targetArray ≠ source_array) then mret tt
    else
      source_keypath ← gets sourceKeypath;
      if bool_decide (Some targetKeypath = source_keypath)
      then
        token ← dataset_targetClass me;
        classList_add me token
      else
        log (DropEffect "move");;
        r ← defined owner;
        source ← ractive_get r (keypath_arg source_keypath);
        let array := splitKeypath (keypath_arg source_keypath) in
        ractive_splice r targetArray (last_segment array) 1 [];;
        modify (with_sourceKeypath (Some targetKeypath));;
        let array := splitKeypath targetKeypath in
        ractive_splice r targetArray (last_segment array) 0 [source];;
        name ← gets eventNameToFire;
        if not_nullish name then ractive_fire r name c array else mret tt.

Definition removeTargetClass (this : Node) : M unit :=
  node ← getNodeToMove this;
  token ← dataset_targetClass node;
  classList_remove node token;;
  log StopPropagation.

Definition preventDefault (this : Node) : M unit :=
  log StopPropagation;;
  log PreventDefault.

(** ** Native events *)

Definition run_handler (h : handler) (this : Node) : M unit :=
  match h with
  | H_dragstartHandler => dragstartHandler this
  | H_dragenterHandler => dragenterHandler this
  | H_removeTargetClass => removeTargetClass this
  | H_preventDefault => preventDefault this
  end.

(** The listeners of one event run in turn, each with [this] bound to the
    node they are registered on; an exception a listener throws is reported
    and the remaining listeners still run. *)
Fixpoint run_listeners (hs : list handler) (this : Node) (st : State)
    : list exn * State :=
  match hs with
  | [] => ([], st)
  | h :: rest =>
      let '(res, st1) := run_handler h this st in
      let '(reported, st2) := run_listeners rest this st1 in
      (match res with Ok _ => reported | Throw e => e :: reported end, st2)
  end.

(** A native event of type [ty] arriving at [target]: the exceptions
    reported and the state afterwards. *)
Definition dispatch (ty : event_type) (target : Node) (st : State)
    : list exn * State :=
  run_listeners
    (snd <$> filter (λ l, l.1 = ty) (listeners_on st target)) target st.

(** The state when the plugin has just been loaded, over a given DOM
    structure and host, whose renderer has nothing to render yet. *)
Definition loaded (query : gmap (Node * string) Node) (instances : gmap Owner value)
    (contexts : gmap Node Ctx) : State :=
  {| ractive := None; sourceKeypath := None; sourceArray := None;
     nodeMapping := []; eventNameToFire := VUndefined;
     targetClass_of := ∅; classList := ∅; draggable := ∅; listeners := ∅;
     querySelector := query; invalidSelectors := ∅;
     data := instances; getContext := contexts;
     renderer := λ _ _ _, []; calls := [] |}.

(** ** Reading the state *)

(** The movable element the registry answers for a handle, if any. *)
Definition resolve (st : State) (h : Node) : option Node :=
  nodeToMove <$>
    List.find (λ item, bool_decide (draggableNode item = Some h)) (nodeMapping st).

(** The class token recorded for a movable element. *)
Definition target_token (st : State) (n : Node) : string :=
  default "undefined" (targetClass_of st !! n).

(** A selector is given and the DOM refuses it. *)
Definition refuses (st : State) (draggableElSelector : value) : bool :=
  not_nullish draggableElSelector &&
  selector_refused st (ToString draggableElSelector).

(** The handle [sortable] works on: the node itself, or what a selector
    that parses finds inside it. *)
Definition handle (st : State) (node : Node) (draggableElSelector : value)
    : option Node :=
  if not_nullish draggableElSelector
  then if selector_refused st (ToString draggableElSelector) then None
       else querySelector st !! (node, ToString draggableElSelector)
  else Some node.

(** The listeners one [sortable] call registers, in order. *)
Definition plugin_listeners : list (event_type * handler) :=
  [(Dragstart, H_dragstartHandler); (Dragend, H_removeTargetClass);
   (Dragenter, H_dragenterHandler); (Dragover, H_preventDefault);
   (Drop, H_removeTargetClass)].

Definition is_fire (c : call) : bool :=
  match c with Fire _ _ _ _ => true | _ => false end.

(** The drag session as the handlers see it. *)
Definition session (st : State) : option Owner * option string * option string :=
  (ractive st, sourceKeypath st, sourceArray st).

(** ** States the handlers lead to *)

(** An ignored drag-enter: only [preventDefault] was called on the event. *)
Definition ignored (st : State) : State :=
  with_calls (calls st ++ [PreventDefault])%list st.

(** The state after a successful [ractive.splice]: the call logged, the
    array replaced, the page rendered again. *)
Definition spliced (r : Owner) (keypath : string) (index : option string)
    (removeCount : Z) (add : list value) (items : list value) (st : State) : State :=
  let st1 :=
    with_data
      (<[r := set_at (root st r) (splitKeypath keypath)
                (VArr (host_splice items index removeCount add))]>
         (data st))
      (with_calls (calls st ++ [Splice r keypath index removeCount add])%list st) in
  run_render
    (renderer st1
       {| sp_owner := r; sp_keypath := keypath; sp_items := items;
          sp_index := index; sp_count := removeCount; sp_add := add |}
       (getContext st1) (fresh st1))
    st1.

(** The array after the two splices of a reorder. *)
Definition moved (items : list value) (skp tkp : string) (source : value)
    : list value :=
  host_splice
    (host_splice items (last_segment (splitKeypath skp)) 1 [])
    (last_segment (splitKeypath tkp)) 0 [source].

(** The state after a drag-start on an element with context [c] that passed
    the array check. *)
Definition started (c : Ctx) (st : State) : State :=
  let st1 := with_sourceArray (Some (c_resolve_up c))
               (with_sourceKeypath (Some (c_resolve c)) st) in
  let st2 := with_calls (calls st1 ++ [SetData "foo" (VBool true)])%list st1 in
  let st3 := with_ractive (Some (c_ractive c)) st2 in
  with_calls (calls st3 ++ [StopPropagation])%list st3.

(** The state a refused drag-start leaves: the two keypaths are already
    stored when the check throws. *)
Definition refused (c : Ctx) (st : State) : State :=
  with_sourceArray (Some (c_resolve_up c))
    (with_sourceKeypath (Some (c_resolve c)) st).

(** A gesture's first two events, as calls of the two handlers. *)
Definition drag_and_enter (source_handle target_handle : Node) : M unit :=
  dragstartHandler source_handle;;
  dragenterHandler target_handle.

(** The state [sortable] has reached when it turns to the draggable node:
    the mapping pushed, the class name recorded on the movable element, the
    event name stored. *)
Definition registered (node : Node) (draggable_node : option Node)
    (targetClass name : value) (st : State) : State :=
  with_eventNameToFire name
    (with_targetClass_of
       (<[node := ToString (js_or targetClass (VStr "droptarget"))]>
          (targetClass_of st))
       (with_nodeMapping
          (nodeMapping st ++
             [{| nodeToMove := node; draggableNode := draggable_node |}])%list
          st)).

(** The draggable node made draggable and given the five listeners. *)
Definition wired (h : Node) (st : State) : State :=
  add_listener h Drop H_removeTargetClass
    (add_listener h Dragover H_preventDefault
       (add_listener h Dragenter H_dragenterHandler
          (add_listener h Dragend H_removeTargetClass
             (add_listener h Dragstart H_dragstartHandler
                (with_draggable (<[h := true]> (draggable st)) st))))).

(** The five listeners taken off again. *)
Definition unwired (h : Node) (st : State) : State :=
  remove_listener h Drop H_removeTargetClass
    (remove_listener h Dragover H_preventDefault
       (remove_listener h Dragenter H_dragenterHandler
          (remove_listener h Dragend H_removeTargetClass
             (remove_listener h Dragstart H_dragstartHandler st)))).

(** A computation that never throws the plugin's own error. *)
Definition never_invalid {A : Type} (m : M A) : Prop :=
  ∀ st, (m st).1 ≠ Throw (Error errorMessage).

(** Two states that differ at most in the listeners and the [draggable]
    flags of their nodes. *)
Definition unchanged (st st' : State) : Prop :=
  nodeMapping st' = nodeMapping st ∧
  getContext st' = getContext st ∧
  data st' = data st ∧
  targetClass_of st' = targetClass_of st ∧
  classList st' = classList st ∧
  session st' = session st ∧
  eventNameToFire st' = eventNameToFire st ∧
  calls st' = calls st.

(** What the renderer leaves alone: the data, the session, the calls
    issued and the class lists. *)
Definition render_kept (st st' : State) : Prop :=
  data st' = data st ∧
  session st' = session st ∧
  calls st' = calls st ∧
  classList st' = classList st.

(** ** A page to run the plugin on *)

(** The context of the element rendered for member [i] of the array at
    [arr] in instance [r]. *)
Definition item_context (r : Owner) (arr : string) (i : nat) : Ctx :=
  {| c_ractive := r; c_resolve := arr +:+ "." +:+ pretty i; c_resolve_up := arr |}.

(** Two Ractive instances.  Instance 0 holds [list], rendered as the
    elements 10 to 13, and [other], rendered as 20 and 21; element 40 is
    rendered from its [title], a member of the root object and of no
    array.  Instance 1 holds a [list] of its own, rendered as 30 and 31. *)
Definition page (a b c d : value) : State :=
  loaded ∅
    (<[0%nat := VObj [("list", VArr [a; b; c; d]);
                      ("other", VArr [VStr "x"; VStr "y"]);
                      ("title", VStr "shopping")]]>
       (<[1%nat := VObj [("list", VArr [VStr "p"; VStr "q"])]]> ∅))
    (list_to_map
       [(10%nat, item_context 0%nat "list" 0%nat); (11%nat, item_context 0%nat "list" 1%nat);
        (12%nat, item_context 0%nat "list" 2%nat); (13%nat, item_context 0%nat "list" 3%nat);
        (20%nat, item_context 0%nat "other" 0%nat); (21%nat, item_context 0%nat "other" 1%nat);
        (30%nat, item_context 1%nat "list" 0%nat); (31%nat, item_context 1%nat "list" 1%nat);
        (40%nat, {| c_ractive := 0%nat; c_resolve := "title"; c_resolve_up := "" |})]).

(** The decorator applied to each of the nodes with the same arguments, as
    a template section does for the elements it renders. *)
Fixpoint decorate (nodes : list Node) (targetClass name : value) : M unit :=
  match nodes with
  | [] => mret tt
  | n :: rest => sortable n VUndefined targetClass name;; decorate rest targetClass name
  end.

(** The page with every list item decorated, no class or event name
    given. *)
Definition page_ready (a b c d : value) : State :=
  (decorate [10; 11; 12; 13; 20; 21; 30; 31]%nat VUndefined VUndefined
     (page a b c d)).2.

(** *** A page the host renders *)

(** A section of a template over the members of an array,
    [{{#each keypath}}<li as-sortable="null, targetClass, name">...{{/each}}]:
    one element for every member, decorated without a selector.  The
    arguments of the decorator are expressions and may depend on the
    member. *)
Record Each : Type := {
  e_owner : Owner;
  e_keypath : string;
  e_targetClass : value → value;
  e_name : value → value
}.

(** The index of the member an element was rendered for, when its context
    is a member of the array at [keypath] of instance [r]. *)
Definition member_index (r : Owner) (keypath : string) (c : Ctx) : option nat :=
  if bool_decide (c_ractive c = r ∧ c_resolve_up c = keypath)
  then last_segment (splitKeypath (c_resolve c)) ≫= array_index
  else None.

(** Where a splice starts and how many members it takes out, clamped to
    the array as [host_splice] has it. *)
Definition splice_range (sp : Splicing) : nat * nat :=
  let len := Z.of_nat (length (sp_items sp)) in
  match ToNumber (sp_index sp) with
  | Some i =>
      let s := if i <? 0 then Z.max (len + i) 0 else Z.min i len in
      (Z.to_nat s, Z.to_nat (Z.min (Z.max (sp_count sp) 0) (len - s)))
  | None => (0%nat, 0%nat)
  end.

(** What a host with these sections renders after a splice.  The elements
    of the members taken out go: their decorators are torn down.  The
    elements of the members behind them stay and move to their new
    indices.  For every member put in, every section over the array gets a
    new element, decorated with the section's arguments; the sections are
    served in the order of the template. *)
Definition each_renderer (sections : list Each) : Renderer :=
  λ sp contexts unused,
    let r := sp_owner sp in
    let keypath := sp_keypath sp in
    let start := (splice_range sp).1 in
    let removed := (splice_range sp).2 in
    let added := length (sp_add sp) in
    let kept_or_gone :=
      (λ nc : Node * Ctx,
         match member_index r keypath nc.2 with
         | Some k =>
             if (k <? start)%nat then []
             else if (k <? start + removed)%nat
                  then [Detached nc.1; Context nc.1 None]
                  else [Context nc.1
                          (Some (item_context r keypath (k - removed + added)))]
         | None => []
         end) <$> map_to_list contexts in
    let mine :=
      filter (λ e, e_owner e = r ∧ e_keypath e = keypath) sections in
    let come :=
      imap (λ q e,
              imap (λ p x,
                      let node := (unused + q * added + p)%nat in
                      [Context node (Some (item_context r keypath (start + p)));
                       Attached node VUndefined (e_targetClass e x) (e_name e x)])
                   (sp_add sp))
           mine in
    (concat kept_or_gone ++ concat (concat come))%list.

(** The page with [list] and [other] of instance 0 each rendered by a
    section of its own: the items of [list], elements 10 to 13, decorated
    with the event name ["moved"], and after them the items of [other],
    elements 20 and 21, decorated with the event name [second]. *)
Definition page_named (a b c d : value) (second : value) : State :=
  (decorate [20; 21]%nat VUndefined second
     (decorate [10; 11; 12; 13]%nat VUndefined (VStr "moved")
        (with_renderer
           (each_renderer
              [{| e_owner := 0%nat; e_keypath := "list";
                  e_targetClass := λ _, VUndefined; e_name := λ _, VStr "moved" |};
               {| e_owner := 0%nat; e_keypath := "other";
                  e_targetClass := λ _, VUndefined; e_name := λ _, second |}])
           (page a b c d))).2).2.


(** ** Further states and relations *)

(** The state after a reordering drag-enter on the element with context
    [c], when the session's source keypath was [k] and the array held
    [items]. *)
Definition reordered (c : Ctx) (k : option string) (items : list value)
    (st : State) : State :=
  let r := c_ractive c in
  let arr := c_resolve_up c in
  let st1 := with_calls (calls (ignored st) ++ [DropEffect "move"])%list (ignored st) in
  let source := value_at st r (keypath_arg k) in
  let from := last_segment (splitKeypath (keypath_arg k)) in
  let to := last_segment (splitKeypath (c_resolve c)) in
  let st2 := spliced r arr from 1 [] items st1 in
  let st3 := with_sourceKeypath (Some (c_resolve c)) st2 in
  let st4 := spliced r arr to 0 [source] (host_splice items from 1 []) st3 in
  if not_nullish (eventNameToFire st4)
  then with_calls
         (calls st4 ++ [Fire r (eventNameToFire st4) c (splitKeypath (c_resolve c))])%list
         st4
  else st4.

(** The state a drag-enter leaves when the host refuses the removal. *)
Definition reorder_refused (c : Ctx) (k : option string) (st : State) : State :=
  let st1 := with_calls (calls (ignored st) ++ [DropEffect "move"])%list (ignored st) in
  with_calls
    (calls st1 ++
     [Splice (c_ractive c) (c_resolve_up c)
        (last_segment (splitKeypath (keypath_arg k))) 1 []])%list
    st1.

(** A computation whose final state is always related by [R] to the state
    it started in, whether it returns or throws. *)
Definition respects (R : State → State → Prop) {A : Type} (m : M A) : Prop :=
  ∀ st, R st (m st).2.

(** What the listeners leave alone: the registry, the listeners, the class
    names recorded, the event name, the flags and structure of the DOM, the
    contexts. *)
Definition wiring_kept (st st' : State) : Prop :=
  nodeMapping st' = nodeMapping st ∧
  listeners st' = listeners st ∧
  targetClass_of st' = targetClass_of st ∧
  eventNameToFire st' = eventNameToFire st ∧
  draggable st' = draggable st ∧
  querySelector st' = querySelector st ∧
  getContext st' = getContext st.

Definition data_kept (st st' : State) : Prop := data st' = data st.

(** What a drag-enter may do to the session: the owner and the source
    collection stay, the source keypath stays or becomes a keypath. *)
Definition session_advanced (st st' : State) : Prop :=
  ractive st' = ractive st ∧
  sourceArray st' = sourceArray st ∧
  (sourceKeypath st' = sourceKeypath st ∨ is_Some (sourceKeypath st')).

(** The session is filled in order: no owner without a source collection,
    no source collection without a source keypath. *)
Definition session_ordered (st : State) : Prop :=
  (is_Some (ractive st) → is_Some (sourceArray st)) ∧
  (is_Some (sourceArray st) → is_Some (sourceKeypath st)).

(** Only the plugin's listeners, each at most once, on every node. *)
Definition listeners_ok (st : State) : Prop :=
  ∀ n, (∀ l, l ∈ listeners_on st n → l ∈ plugin_listeners) ∧
       NoDup (listeners_on st n).

(** Every movable element of the registry has its class name recorded. *)
Definition classes_recorded (st : State) : Prop :=
  ∀ item, item ∈ nodeMapping st → is_Some (targetClass_of st !! nodeToMove item).

(** Neither the wiring nor the host's data changed. *)
Definition host_kept (st st' : State) : Prop :=
  wiring_kept st st' ∧ data_kept st st'.

(** What a native event reports of one listener's result. *)
Definition reported (res : result unit) : list exn :=
  match res with
  | Ok _ => []
  | Throw e => [e]
  end.

(** The event names of the steps that decorate an element without a
    selector, in the order of the steps. *)
Definition attached_names (steps : list render_step) : list value :=
  omap (λ s, match s with
             | Attached _ sel _ name => if not_nullish sel then None else Some name
             | _ => None
             end) steps.

(** ** Histories *)

(** What can happen to a page: a decorator is attached, a [teardown] is
    called, a native drag event arrives, the host changes its data and
    renders again, giving the elements new contexts, or the host is given
    the templates it renders from. *)
Inductive op : Type :=
| Attach (node : Node) (draggableElSelector targetClass name : value)
| Detach (node : Node)
| Native (ty : event_type) (target : Node)
| Render (instances : gmap Owner value) (contexts : gmap Node Ctx)
| Template (f : Renderer).

Definition step (o : op) (st : State) : State :=
  match o with
  | Attach node sel targetClass name => (sortable node sel targetClass name st).2
  | Detach node => (teardown node st).2
  | Native ty target => (dispatch ty target st).2
  | Render instances contexts => with_getContext contexts (with_data instances st)
  | Template f => with_renderer f st
  end.

(** The state after a history, oldest step first. *)
Definition run (ops : list op) (st : State) : State :=
  foldl (λ s o, step o s) st ops.

(** ** Basic facts *)

Ltac unfold_m :=
  unfold mbind, M_bind, mret, M_ret, gets, modify, throw, log, defined in *.

Lemma getNodeToMove_resolve (st : State) (h : Node) :
  getNodeToMove h st =
  (match resolve st h with Some n => Ok n | None => Throw TypeError end, st).
Proof.
  unfold getNodeToMove, resolve. unfold_m.
  destruct (List.find _ (nodeMapping st)); reflexivity.
Qed.

Lemma bind_ok {A B : Type} (m : M A) (f : A → M B) (st st' : State) (a : A) :
  m st = (Ok a, st') → (m ≫= f) st = f a st'.
Proof. intros H. unfold mbind, M_bind. rewrite H. reflexivity. Qed.

Lemma dragenter_foreign_owner (st : State) (this me : Node) (c : Ctx) :
  resolve st this = Some me →
  getContext st !! me = Some c →
  Some (c_ractive c) ≠ ractive st →
  dragenterHandler this st = (Ok tt, ignored st).
Proof.
  intros Hres Hctx Hne. unfold dragenterHandler.
  erewrite bind_ok by (rewrite getNodeToMove_resolve, Hres; reflexivity).
  unfold_m. unfold Ractive_getContext. unfold_m. simpl. rewrite Hctx.
  rewrite bool_decide_eq_true_2 by exact Hne. reflexivity.
Qed.

Lemma dragenter_foreign_collection (st : State) (this me : Node) (c : Ctx) :
  resolve st this = Some me →
  getContext st !! me = Some c →
  Some (c_resolve_up c) ≠ sourceArray st →
  dragenterHandler this st = (Ok tt, ignored st).
Proof.
  intros Hres Hctx Hne. unfold dragenterHandler.
  erewrite bind_ok by (rewrite getNodeToMove_resolve, Hres; reflexivity).
  unfold_m. unfold Ractive_getContext. unfold_m. simpl. rewrite Hctx.
  case_bool_decide; [reflexivity|]. simpl.
  rewrite bool_decide_eq_true_2 by exact Hne. reflexivity.
Qed.

Lemma add_class_elem (n : Node) (token : string) (st : State) :
  token ∈ classes (add_class n token st) n.
Proof.
  unfold add_class. case_bool_decide as Hin; [exact Hin|].
  unfold classes at 1. simpl. rewrite lookup_insert_eq. simpl.
  apply elem_of_app. right. apply list_elem_of_singleton. reflexivity.
Qed.


Lemma add_class_frame (n : Node) (token : string) (st : State) :
  data (add_class n token st) = data st ∧
  session (add_class n token st) = session st ∧
  calls (add_class n token st) = calls st ∧
  nodeMapping (add_class n token st) = nodeMapping st ∧
  eventNameToFire (add_class n token st) = eventNameToFire st.
Proof. unfold add_class. case_bool_decide; repeat split; reflexivity. Qed.

Lemma dragenter_same_position (st : State) (this me : Node) (c : Ctx) :
  resolve st this = Some me →
  getContext st !! me = Some c →
  ractive st = Some (c_ractive c) →
  sourceArray st = Some (c_resolve_up c) →
  sourceKeypath st = Some (c_resolve c) →
  dragenterHandler this st =
  match token_error (target_token st me) with
  | Some e => (Throw e, ignored st)
  | None => (Ok tt, add_class me (target_token st me) (ignored st))
  end.
Proof.
  intros Hres Hctx Hr Ha Hk. unfold dragenterHandler.
  erewrite bind_ok by (rewrite getNodeToMove_resolve, Hres; reflexivity).
  unfold_m. unfold Ractive_getContext, dataset_targetClass, classList_add.
  unfold_m. simpl. rewrite Hctx. simpl. rewrite Hr.
  rewrite bool_decide_eq_false_2 by (intros Hne; apply Hne; reflexivity).
  simpl. rewrite Ha.
  rewrite bool_decide_eq_false_2 by (intros Hne; apply Hne; reflexivity).
  simpl. rewrite Hk.
  rewrite bool_decide_eq_true_2 by reflexivity.
  unfold target_token. simpl.
  destruct (token_error (default "undefined" (targetClass_of st !! me)));
    reflexivity.
Qed.

(** ** Attaching and detaching *)

Lemma sortable_run (st : State) (node : Node) (sel targetClass name : value) :
  sortable node sel targetClass name st =
  match handle st node sel with
  | Some h => (Ok h, wired h (registered node (Some h) targetClass name st))
  | None =>
      if refuses st sel then (Throw SyntaxError, st)
      else (Throw TypeError, registered node None targetClass name st)
  end.
Proof.
  unfold sortable, handle, refuses, node_querySelector, addEventListener,
    dataset_set_targetClass. unfold_m.
  unfold wired, registered.
  destruct (not_nullish sel); simpl.
  - destruct (selector_refused st (ToString sel)); [reflexivity|].
    destruct (querySelector st !! (node, ToString sel)); unfold_m; reflexivity.
  - reflexivity.
Qed.

Lemma teardown_run (st : State) (node : Node) :
  teardown node st = (Ok tt, unwired node st).
Proof. reflexivity. Qed.

Lemma add_listener_elem (n : Node) (ty : event_type) (h : handler) (st : State)
    (l : event_type * handler) :
  l ∈ listeners_on (add_listener n ty h st) n ↔ l ∈ listeners_on st n ∨ l = (ty, h).
Proof.
  unfold add_listener. case_bool_decide as Hin.
  - split; [intros H; left; exact H|]. intros [H| ->]; assumption.
  - unfold listeners_on at 1. simpl. rewrite lookup_insert_eq. simpl.
    rewrite elem_of_app, list_elem_of_singleton. reflexivity.
Qed.

Lemma remove_listener_elem (n : Node) (ty : event_type) (h : handler) (st : State)
    (l : event_type * handler) :
  l ∈ listeners_on (remove_listener n ty h st) n ↔ l ∈ listeners_on st n ∧ l ≠ (ty, h).
Proof.
  unfold remove_listener. case_bool_decide as Hin.
  - unfold listeners_on at 1. simpl. rewrite lookup_insert_eq. simpl.
    rewrite list_elem_of_filter. tauto.
  - split; [|intros [H _]; exact H].
    intros H. split; [exact H|]. intros ->. contradiction.
Qed.

Lemma wired_elem (h : Node) (st : State) (l : event_type * handler) :
  l ∈ listeners_on (wired h st) h ↔ l ∈ listeners_on st h ∨ l ∈ plugin_listeners.
Proof.
  unfold wired, plugin_listeners. rewrite !add_listener_elem.
  change (listeners_on (with_draggable _ st) h) with (listeners_on st h).
  rewrite !elem_of_cons, elem_of_nil. tauto.
Qed.

Lemma unwired_elem (h : Node) (st : State) (l : event_type * handler) :
  l ∈ listeners_on (unwired h st) h ↔ l ∈ listeners_on st h ∧ l ∉ plugin_listeners.
Proof.
  unfold unwired, plugin_listeners. rewrite !remove_listener_elem.
  rewrite !not_elem_of_cons. split.
  - intros H. repeat split; try tauto. apply not_elem_of_nil.
  - tauto.
Qed.

(** Wiring and unwiring touch the listeners and the [draggable] flag
    only. *)
Lemma unchanged_refl (st : State) : unchanged st st.
Proof. repeat split. Qed.

Lemma unchanged_trans (st1 st2 st3 : State) :
  unchanged st1 st2 → unchanged st2 st3 → unchanged st1 st3.
Proof.
  unfold unchanged. intros H1 H2.
  destruct H1 as (?&?&?&?&?&?&?&?), H2 as (?&?&?&?&?&?&?&?).
  repeat split; congruence.
Qed.

Lemma add_listener_unchanged (n : Node) (ty : event_type) (h : handler) (st : State) :
  unchanged st (add_listener n ty h st).
Proof. unfold add_listener. case_bool_decide; repeat split. Qed.

Lemma remove_listener_unchanged (n : Node) (ty : event_type) (h : handler)
    (st : State) :
  unchanged st (remove_listener n ty h st).
Proof. unfold remove_listener. case_bool_decide; repeat split. Qed.

Lemma wired_unchanged (h : Node) (st : State) : unchanged st (wired h st).
Proof.
  unfold wired.
  repeat (eapply unchanged_trans; [|apply add_listener_unchanged]).
  repeat split.
Qed.

Lemma unwired_unchanged (h : Node) (st : State) : unchanged st (unwired h st).
Proof.
  unfold unwired.
  repeat (eapply unchanged_trans; [|apply remove_listener_unchanged]).
  apply unchanged_refl.
Qed.

Lemma find_app_first {A : Type} (f : A → bool) (l l' : list A) :
  List.find f (l ++ l') =
  match List.find f l with Some x => Some x | None => List.find f l' end.
Proof.
  induction l as [|x l IH]; simpl; [reflexivity|].
  destruct (f x); [reflexivity|exact IH].
Qed.

(** A handle the registry does not know yet resolves, once attached, to the
    element it was attached for. *)
Lemma resolve_registered (st : State) (node h : Node) (targetClass name : value) :
  resolve st h = None →
  resolve (registered node (Some h) targetClass name st) h = Some node.
Proof.
  unfold resolve, registered. simpl. intros Hfresh.
  rewrite find_app_first.
  destruct (List.find _ (nodeMapping st)); [discriminate Hfresh|].
  simpl. rewrite bool_decide_eq_true_2 by reflexivity. reflexivity.
Qed.

(** The registry only grows: a handle it knows keeps its answer. *)
Lemma resolve_registered_known (st : State) (node h : Node) (d : option Node)
    (targetClass name : value) (m : Node) :
  resolve st h = Some m →
  resolve (registered node d targetClass name st) h = Some m.
Proof.
  unfold resolve, registered. simpl. intros Hknown.
  rewrite find_app_first.
  destruct (List.find _ (nodeMapping st)); [exact Hknown|discriminate Hknown].
Qed.

(** ** What rendering leaves alone *)

Lemma render_kept_refl (st : State) : render_kept st st.
Proof. repeat split. Qed.

Lemma render_kept_trans (st1 st2 st3 : State) :
  render_kept st1 st2 → render_kept st2 st3 → render_kept st1 st3.
Proof.
  unfold render_kept. intros (?&?&?&?) (?&?&?&?). repeat split; congruence.
Qed.

Lemma unchanged_render_kept (st st' : State) :
  unchanged st st' → render_kept st st'.
Proof. intros (_ & _ & Hd & _ & Hc & Hs & _ & Hl). repeat split; assumption. Qed.

Lemma sortable_render_kept (st : State) (node : Node)
    (sel targetClass name : value) :
  render_kept st (sortable node sel targetClass name st).2.
Proof.
  rewrite sortable_run. destruct (handle st node sel) as [h|]; cbn [snd].
  - apply (render_kept_trans _ (registered node (Some h) targetClass name st));
      [repeat split|].
    apply unchanged_render_kept, wired_unchanged.
  - destruct (refuses st sel); repeat split.
Qed.

Lemma render_one_kept (s : render_step) (st : State) :
  render_kept st (render_one s st).
Proof.
  destruct s as [h|node selector found|node sel targetClass name|n c];
    cbn [render_one].
  - rewrite teardown_run. apply unchanged_render_kept, unwired_unchanged.
  - repeat split.
  - apply sortable_render_kept.
  - repeat split.
Qed.

Lemma run_render_kept (steps : list render_step) (st : State) :
  render_kept st (run_render steps st).
Proof.
  revert st. induction steps as [|s steps IH]; intros st.
  - apply render_kept_refl.
  - eapply render_kept_trans; [apply (render_one_kept s)|apply IH].
Qed.

(** ** The host's data: reading after writing *)

Lemma get_at_undefined (path : list string) : get_at VUndefined path = VUndefined.
Proof.
  induction path as [|key rest IH]; simpl; [reflexivity|].
  destruct (String.eqb key ""); exact IH.
Qed.

Lemma get_at_number (n : Z) (path : list string) (items : list value) :
  get_at (VNum n) path ≠ VArr items.
Proof.
  induction path as [|key rest IH]; simpl; [discriminate|].
  destruct (String.eqb key ""); [exact IH|].
  rewrite get_at_undefined. discriminate.
Qed.

Lemma get_at_app (v : value) (p q : list string) :
  get_at v (p ++ q) = get_at (get_at v p) q.
Proof.
  revert v. induction p as [|key rest IH]; intros v; simpl; [reflexivity|].
  destruct (String.eqb key ""); apply IH.
Qed.

Lemma assoc_get_set (k : string) (x : value) (fs : list (string * value)) :
  assoc_get k (assoc_set k x fs) = Some x.
Proof.
  induction fs as [|[k' v] r IH]; simpl.
  - rewrite String.eqb_refl. reflexivity.
  - destruct (String.eqb k k') eqn:E; simpl.
    + rewrite String.eqb_refl. reflexivity.
    + rewrite E. exact IH.
Qed.

(** Where an array is found, writing and reading back gives what was
    written. *)
Lemma get_set_at (v : value) (path : list string) (x : value) (items : list value) :
  get_at v path = VArr items → get_at (set_at v path x) path = x.
Proof.
  revert v. induction path as [|key rest IH]; intros v H; simpl in *.
  - reflexivity.
  - destruct (String.eqb key "") eqn:Ekey; [apply IH; exact H|].
    destruct v; simpl in H; try (rewrite get_at_undefined in H; discriminate H).
    + destruct (array_index key) as [i|] eqn:Ei.
      2: { destruct (String.eqb key "length").
           - exfalso. exact (get_at_number _ _ _ H).
           - rewrite get_at_undefined in H. discriminate H. }
      destruct (items0 !! i) as [y|] eqn:Ey; simpl in H;
        [|rewrite get_at_undefined in H; discriminate H].
      simpl. rewrite Ei.
      rewrite list_lookup_insert_eq by (eapply lookup_lt_Some; exact Ey).
      simpl. apply IH. exact H.
    + simpl. rewrite assoc_get_set. simpl. apply IH. exact H.
Qed.

Lemma ractive_splice_ok (st : State) (r : Owner) (keypath : string)
    (index : option string) (removeCount : Z) (add items : list value) :
  value_at st r keypath = VArr items →
  ractive_splice r keypath index removeCount add st =
  (Ok tt, spliced r keypath index removeCount add items st).
Proof.
  intros H. unfold ractive_splice, ractive_get. unfold_m. simpl.
  unfold value_at, root in *. simpl. rewrite H. reflexivity.
Qed.

Lemma spliced_frame (st : State) (r : Owner) (keypath : string)
    (index : option string) (removeCount : Z) (add items : list value) :
  data (spliced r keypath index removeCount add items st) =
    <[r := set_at (root st r) (splitKeypath keypath)
             (VArr (host_splice items index removeCount add))]> (data st) ∧
  session (spliced r keypath index removeCount add items st) = session st ∧
  calls (spliced r keypath index removeCount add items st) =
    (calls st ++ [Splice r keypath index removeCount add])%list ∧
  classList (spliced r keypath index removeCount add items st) = classList st.
Proof.
  unfold spliced.
  match goal with
  | |- context [run_render ?steps ?st1] =>
      destruct (run_render_kept steps st1) as (Hd & Hs & Hc & Hl)
  end.
  rewrite Hd, Hs, Hc, Hl. repeat split.
Qed.

Lemma value_at_spliced (st : State) (r : Owner) (keypath : string)
    (index : option string) (removeCount : Z) (add items : list value) :
  value_at st r keypath = VArr items →
  value_at (spliced r keypath index removeCount add items st) r keypath =
  VArr (host_splice items index removeCount add).
Proof.
  intros H.
  destruct (spliced_frame st r keypath index removeCount add items) as (Hd & _).
  unfold value_at, root in *. rewrite Hd.
  rewrite lookup_insert_eq. simpl. eapply get_set_at. exact H.
Qed.

Lemma ractive_splice_not_array (st : State) (r : Owner) (keypath : string)
    (index : option string) (removeCount : Z) (add : list value) :
  Array_isArray (value_at st r keypath) = false →
  ractive_splice r keypath index removeCount add st =
  (Throw HostError,
   with_calls (calls st ++ [Splice r keypath index removeCount add])%list st).
Proof.
  intros H. unfold ractive_splice, ractive_get. unfold_m. simpl.
  unfold value_at, root in *. simpl.
  destruct (get_at _ _); try reflexivity. discriminate H.
Qed.

(** ** The reorder *)

Lemma dragenter_reorder_run (st : State) (this me : Node) (c : Ctx)
    (items : list value) :
  resolve st this = Some me →
  getContext st !! me = Some c →
  ractive st = Some (c_ractive c) →
  sourceArray st = Some (c_resolve_up c) →
  Some (c_resolve c) ≠ sourceKeypath st →
  value_at st (c_ractive c) (c_resolve_up c) = VArr items →
  dragenterHandler this st = (Ok tt, reordered c (sourceKeypath st) items st).
Proof.
  intros Hres Hctx Hr Ha Hne Harr. unfold dragenterHandler.
  erewrite bind_ok by (rewrite getNodeToMove_resolve, Hres; reflexivity).
  unfold_m. unfold Ractive_getContext, ractive_get. unfold_m.
  simpl. rewrite Hctx. simpl. rewrite Hr.
  rewrite bool_decide_eq_false_2 by (intros H; apply H; reflexivity).
  simpl. rewrite Ha.
  rewrite bool_decide_eq_false_2 by (intros H; apply H; reflexivity).
  simpl.
  rewrite bool_decide_eq_false_2 by exact Hne.
  simpl.
  erewrite ractive_splice_ok by exact Harr.
  erewrite ractive_splice_ok.
  2: { apply (value_at_spliced
                (with_calls ((calls st ++ [PreventDefault]) ++ [DropEffect "move"])
                   (with_calls (calls st ++ [PreventDefault]) st))).
       exact Harr. }
  unfold ractive_fire, reordered, ignored. unfold_m.
  change (value_at (with_calls _ (with_calls _ st)) ?r ?k) with (value_at st r k).
  change ((calls st ++ [PreventDefault]) ++ [DropEffect "move"])%list
    with (calls (with_calls (calls st ++ [PreventDefault]) st)
            ++ [DropEffect "move"])%list.
  cbv zeta.
  match goal with
  | |- context [not_nullish (eventNameToFire ?s)] =>
      destruct (not_nullish (eventNameToFire s)); reflexivity
  end.
Qed.

(** What a reorder leaves: the array with the member moved, the session
    moved on to the target, the calls of the two splices and at most one
    notification after them. *)
Lemma reordered_frame (c : Ctx) (k : option string) (items : list value)
    (st : State) :
  value_at st (c_ractive c) (c_resolve_up c) = VArr items →
  let r := c_ractive c in
  let arr := c_resolve_up c in
  let source := value_at st r (keypath_arg k) in
  let st' := reordered c k items st in
  value_at st' r arr =
    VArr (moved items (keypath_arg k) (c_resolve c) source) ∧
  sourceKeypath st' = Some (c_resolve c) ∧
  ractive st' = ractive st ∧
  sourceArray st' = sourceArray st ∧
  classList st' = classList st ∧
  (∀ r', r' ≠ r → data st' !! r' = data st !! r') ∧
  calls st' =
    (calls st ++
     [PreventDefault; DropEffect "move";
      Splice r arr (last_segment (splitKeypath (keypath_arg k))) 1 [];
      Splice r arr (last_segment (splitKeypath (c_resolve c))) 0 [source]] ++
     (if not_nullish (eventNameToFire st')
      then [Fire r (eventNameToFire st') c (splitKeypath (c_resolve c))]
      else []))%list.
Proof.
  intros Harr r arr source st'.
  set (st1 := with_calls (calls (ignored st) ++ [DropEffect "move"])%list (ignored st)).
  set (from := last_segment (splitKeypath (keypath_arg k))).
  set (to := last_segment (splitKeypath (c_resolve c))).
  set (st2 := spliced r arr from 1 [] items st1).
  set (st3 := with_sourceKeypath (Some (c_resolve c)) st2).
  set (st4 := spliced r arr to 0 [source] (host_splice items from 1 []) st3).
  assert (H2 : value_at st2 r arr = VArr (host_splice items from 1 [])).
  { apply (value_at_spliced st1). exact Harr. }
  destruct (spliced_frame st1 r arr from 1 [] items) as (Hd2 & Hs2 & Hc2 & Hl2).
  fold st2 in Hd2, Hs2, Hc2, Hl2.
  assert (H4 : value_at st4 r arr = VArr (moved items (keypath_arg k) (c_resolve c) source)).
  { apply (value_at_spliced st3). exact H2. }
  destruct (spliced_frame st3 r arr to 0 [source] (host_splice items from 1 []))
    as (Hd4 & Hs4 & Hc4 & Hl4).
  fold st4 in Hd4, Hs4, Hc4, Hl4.
  assert (Hst' : st' = if not_nullish (eventNameToFire st4)
                       then with_calls
                              (calls st4 ++
                               [Fire r (eventNameToFire st4) c
                                  (splitKeypath (c_resolve c))])%list st4
                       else st4) by reflexivity.
  assert (Hsess : session st4 = (ractive st, Some (c_resolve c), sourceArray st)).
  { rewrite Hs4. unfold session in *. simpl.
    injection Hs2 as Hr2 _ Ha2. rewrite Hr2, Ha2. reflexivity. }
  assert (Hcalls : calls st4 =
            (calls st ++
             [PreventDefault; DropEffect "move"; Splice r arr from 1 [];
              Splice r arr to 0 [source]])%list).
  { rewrite Hc4. simpl. rewrite Hc2. simpl.
    rewrite <- !app_assoc. reflexivity. }
  assert (Hdata : ∀ r', r' ≠ r → data st4 !! r' = data st !! r').
  { intros r' Hr'. rewrite Hd4. rewrite lookup_insert_ne by congruence.
    simpl. rewrite Hd2. rewrite lookup_insert_ne by congruence. reflexivity. }
  assert (Hcl : classList st4 = classList st).
  { rewrite Hl4. simpl. rewrite Hl2. reflexivity. }
  injection Hsess as Hr4 Hk4 Ha4.
  rewrite Hst'.
  destruct (not_nullish (eventNameToFire st4)) eqn:Hname.
  - change (eventNameToFire (with_calls _ st4)) with (eventNameToFire st4).
    rewrite Hname. repeat split; try assumption.
    all: simpl; rewrite Hcalls, <- !app_assoc; reflexivity.
  - rewrite Hname. repeat split; try assumption.
    all: rewrite app_nil_r; exact Hcalls.
Qed.

Lemma dragenter_reorder (st : State) (this me : Node) (c : Ctx) (skp : string)
    (items : list value) :
  resolve st this = Some me →
  getContext st !! me = Some c →
  ractive st = Some (c_ractive c) →
  sourceArray st = Some (c_resolve_up c) →
  sourceKeypath st = Some skp →
  skp ≠ c_resolve c →
  value_at st (c_ractive c) (c_resolve_up c) = VArr items →
  ∃ st',
    dragenterHandler this st = (Ok tt, st') ∧
    value_at st' (c_ractive c) (c_resolve_up c) =
      VArr (moved items skp (c_resolve c) (value_at st (c_ractive c) skp)) ∧
    sourceKeypath st' = Some (c_resolve c) ∧
    ractive st' = ractive st ∧
    sourceArray st' = sourceArray st ∧
    classList st' = classList st ∧
    ∃ fired,
      calls st' =
        (calls st ++
         [PreventDefault; DropEffect "move";
          Splice (c_ractive c) (c_resolve_up c)
            (last_segment (splitKeypath skp)) 1 [];
          Splice (c_ractive c) (c_resolve_up c)
            (last_segment (splitKeypath (c_resolve c))) 0
            [value_at st (c_ractive c) skp]] ++
         fired)%list ∧
      (fired = [] ∨
       ∃ name, not_nullish name = true ∧
               fired = [Fire (c_ractive c) name c (splitKeypath (c_resolve c))]).
Proof.
  intros Hres Hctx Hr Ha Hk Hne Harr.
  exists (reordered c (sourceKeypath st) items st). split.
  { apply (dragenter_reorder_run st this me c items); try assumption.
    rewrite Hk. congruence. }
  destruct (reordered_frame c (sourceKeypath st) items st Harr)
    as (Hv & Hkp & Hr' & Ha' & Hcl & _ & Hcalls).
  rewrite Hk in *. simpl in *.
  repeat split; try assumption.
  eexists. split; [exact Hcalls|].
  destruct (not_nullish (eventNameToFire _)) eqn:Hname; [right|left; reflexivity].
  eexists. split; [exact Hname|reflexivity].
Qed.

(** ** Drag-start *)

Lemma dragstart_ok (st : State) (this me : Node) (c : Ctx) :
  resolve st this = Some me →
  getContext st !! me = Some c →
  Array_isArray (value_at st (c_ractive c) (c_resolve_up c)) = true →
  dragstartHandler this st = (Ok tt, started c st).
Proof.
  intros Hres Hctx Harr. unfold dragstartHandler.
  erewrite bind_ok by (rewrite getNodeToMove_resolve, Hres; reflexivity).
  unfold_m. unfold Ractive_getContext, context_get_up, ractive_get. unfold_m.
  simpl. rewrite Hctx. simpl.
  change (value_at (with_sourceArray _ (with_sourceKeypath _ st)) ?r ?k)
    with (value_at st r k).
  rewrite Harr. reflexivity.
Qed.

Lemma dragstart_invalid (st : State) (this me : Node) (c : Ctx) :
  resolve st this = Some me →
  getContext st !! me = Some c →
  Array_isArray (value_at st (c_ractive c) (c_resolve_up c)) = false →
  dragstartHandler this st = (Throw (Error errorMessage), refused c st).
Proof.
  intros Hres Hctx Harr. unfold dragstartHandler.
  erewrite bind_ok by (rewrite getNodeToMove_resolve, Hres; reflexivity).
  unfold_m. unfold Ractive_getContext, context_get_up, ractive_get. unfold_m.
  simpl. rewrite Hctx. simpl.
  change (value_at (with_sourceArray _ (with_sourceKeypath _ st)) ?r ?k)
    with (value_at st r k).
  rewrite Harr. reflexivity.
Qed.

Lemma last_segment_snoc (segs : list string) (seg : string) :
  last_segment (segs ++ [seg]) = Some seg.
Proof.
  unfold last_segment. rewrite length_app. simpl.
  replace (length segs + 1 - 1)%nat with (length segs + 0)%nat by lia.
  rewrite lookup_app_r by lia.
  replace (length segs + 0 - length segs)%nat with 0%nat by lia. reflexivity.
Qed.

(** A drag started on the member [i] of an array and entering the element of
    its member [j] leaves the array with the member moved: removed at [i],
    put back at [j]. *)
Lemma drag_and_enter_moves (st : State) (hs ht ms mt : Node) (r : Owner)
    (arr kps kpt i j : string) (items : list value) :
  resolve st hs = Some ms →
  resolve st ht = Some mt →
  getContext st !! ms = Some {| c_ractive := r; c_resolve := kps; c_resolve_up := arr |} →
  getContext st !! mt = Some {| c_ractive := r; c_resolve := kpt; c_resolve_up := arr |} →
  value_at st r arr = VArr items →
  splitKeypath kps = (splitKeypath arr ++ [i])%list →
  splitKeypath kpt = (splitKeypath arr ++ [j])%list →
  i ≠ j →
  ∃ st',
    drag_and_enter hs ht st = (Ok tt, st') ∧
    value_at st' r arr =
      VArr (host_splice (host_splice items (Some i) 1 [])
              (Some j) 0 [get_at (VArr items) [i]]).
Proof.
  intros Hs Ht Hcs Hct Harr Hks Hkt Hij.
  set (cs := {| c_ractive := r; c_resolve := kps; c_resolve_up := arr |}) in *.
  set (ct := {| c_ractive := r; c_resolve := kpt; c_resolve_up := arr |}) in *.
  assert (Hstart : dragstartHandler hs st = (Ok tt, started cs st)).
  { eapply dragstart_ok; [exact Hs|exact Hcs|]. simpl. rewrite Harr. reflexivity. }
  assert (Hne : kps ≠ c_resolve ct).
  { simpl. intros ->. rewrite Hkt in Hks. apply app_inv_head in Hks.
    apply Hij. congruence. }
  destruct (dragenter_reorder (started cs st) ht mt ct kps items)
    as (st' & Henter & Hval & _); try assumption; try reflexivity.
  exists st'. split.
  - unfold drag_and_enter. erewrite bind_ok by exact Hstart. exact Henter.
  - subst cs ct. simpl in Hval. rewrite Hval. unfold moved.
    rewrite Hks, Hkt, !last_segment_snoc.
    change (value_at (started _ st) r kps) with (value_at st r kps).
    unfold value_at in *. rewrite Hks, get_at_app, Harr. reflexivity.
Qed.

(** ** Splicing, on lists *)

Lemma js_splice_insert {A : Type} (l : list A) (start : Z) (x : A) :
  ∃ n, (n ≤ length l)%nat ∧
       js_splice l start 0 [x] = (take n l ++ x :: drop n l)%list ∧
       (0 ≤ start ≤ Z.of_nat (length l) → n = Z.to_nat start).
Proof.
  unfold js_splice.
  set (len := Z.of_nat (length l)).
  set (s := if start <? 0 then Z.max (len + start) 0 else Z.min start len).
  assert (Hs : 0 ≤ s ≤ len).
  { unfold s. destruct (Z.ltb_spec start 0); lia. }
  replace (Z.min (Z.max 0 0) (len - s)) with 0 by lia.
  replace (s + 0) with s by lia.
  exists (Z.to_nat s). split; [lia|]. split; [reflexivity|].
  intros Hstart. unfold s. destruct (Z.ltb_spec start 0); [lia|].
  f_equal. lia.
Qed.

Lemma js_splice_insert_perm {A : Type} (l : list A) (start : Z) (x : A) :
  js_splice l start 0 [x] ≡ₚ x :: l.
Proof.
  destruct (js_splice_insert l start x) as (n & _ & -> & _).
  rewrite <- Permutation_middle, take_drop. reflexivity.
Qed.

Lemma js_splice_remove_member {A : Type} (l : list A) (i : nat) :
  (i < length l)%nat →
  js_splice l (Z.of_nat i) 1 [] = (take i l ++ drop (S i) l)%list.
Proof.
  intros Hi. unfold js_splice.
  replace (Z.of_nat i <? 0) with false by (symmetry; apply Z.ltb_ge; lia).
  replace (Z.min (Z.of_nat i) (Z.of_nat (length l))) with (Z.of_nat i) by lia.
  replace (Z.min (Z.max 1 0) (Z.of_nat (length l) - Z.of_nat i)) with 1 by lia.
  rewrite Nat2Z.id. replace (Z.to_nat (Z.of_nat i + 1)) with (S i) by lia.
  reflexivity.
Qed.

Lemma js_splice_remove_beyond {A : Type} (l : list A) (i : nat) :
  (length l ≤ i)%nat → js_splice l (Z.of_nat i) 1 [] = l.
Proof.
  intros Hi. unfold js_splice.
  replace (Z.of_nat i <? 0) with false by (symmetry; apply Z.ltb_ge; lia).
  replace (Z.min (Z.of_nat i) (Z.of_nat (length l)))
    with (Z.of_nat (length l)) by lia.
  replace (Z.min (Z.max 1 0) (Z.of_nat (length l) - Z.of_nat (length l)))
    with 0 by lia.
  replace (Z.of_nat (length l) + 0) with (Z.of_nat (length l)) by lia.
  rewrite Nat2Z.id, take_ge, drop_ge by lia. simpl. apply app_nil_r.
Qed.

(** Taking a member out and putting it back anywhere gives a permutation
    of the list. *)
Lemma js_splice_move_perm {A : Type} (l : list A) (i : nat) (x : A) (target : Z) :
  l !! i = Some x →
  js_splice (js_splice l (Z.of_nat i) 1 []) target 0 [x] ≡ₚ l.
Proof.
  intros Hx.
  rewrite js_splice_insert_perm.
  rewrite js_splice_remove_member by (eapply lookup_lt_Some; exact Hx).
  rewrite Permutation_middle, take_drop_middle by exact Hx. reflexivity.
Qed.

(** After the move the member is found at the target index. *)
Lemma js_splice_move_lookup {A : Type} (l : list A) (i j : nat) (x : A) :
  l !! i = Some x →
  (j < length l)%nat →
  js_splice (js_splice l (Z.of_nat i) 1 []) (Z.of_nat j) 0 [x] !! j = Some x.
Proof.
  intros Hx Hj.
  assert (Hi : (i < length l)%nat) by (eapply lookup_lt_Some; exact Hx).
  rewrite js_splice_remove_member by exact Hi.
  set (l' := (take i l ++ drop (S i) l)%list).
  assert (Hlen : length l' = (length l - 1)%nat).
  { unfold l'. rewrite length_app, length_take, length_drop. lia. }
  destruct (js_splice_insert l' (Z.of_nat j) x) as (n & Hn & -> & Hstart).
  rewrite Hstart by lia. rewrite Nat2Z.id.
  rewrite lookup_app_r by (rewrite length_take; lia).
  rewrite length_take.
  replace (j - j `min` length l')%nat with 0%nat by lia. reflexivity.
Qed.

(** ** Index segments *)

Lemma digit_of_range (c : ascii) (d : Z) : digit_of c = Some d → 0 ≤ d.
Proof.
  unfold digit_of.
  destruct ((48 <=? Z.of_N (N_of_ascii c)) && (Z.of_N (N_of_ascii c) <=? 57)) eqn:E;
    [|discriminate].
  intros [= <-]. apply andb_prop in E as [E _]. apply Z.leb_le in E. lia.
Qed.

Lemma parse_digits_nonneg (s : string) (acc n : Z) :
  0 ≤ acc → parse_digits s acc = Some n → 0 ≤ n.
Proof.
  revert acc. induction s as [|c r IH]; intros acc Hacc; simpl.
  - intros [= <-]. exact Hacc.
  - destruct (digit_of c) as [d|] eqn:Ed; [|discriminate].
    apply IH. apply digit_of_range in Ed. lia.
Qed.

Lemma parse_nat_nonneg (s : string) (n : Z) : parse_nat s = Some n → 0 ≤ n.
Proof.
  destruct s as [|c r]; [discriminate|].
  unfold parse_nat. apply parse_digits_nonneg. lia.
Qed.

Lemma array_index_parse (key : string) (i : nat) :
  array_index key = Some i → Z.to_nat <$> parse_nat key = Some i.
Proof.
  unfold array_index.
  destruct key as [|a r]; [intros H; exact H|].
  destruct r as [|b r']; [|];
    destruct a as [[] [] [] [] [] [] [] []]; intros H;
    first [exact H | discriminate H].
Qed.

Lemma ToNumber_parse (s : string) (n : Z) :
  parse_nat s = Some n → ToNumber (Some s) = Some n.
Proof.
  destruct s as [|a r]; [discriminate|].
  destruct a as [[] [] [] [] [] [] [] []]; intros H; simpl in *;
    first [exact H | discriminate H].
Qed.

(** A segment that is an array index is, as the start of a splice, that
    index. *)
Lemma array_index_ToNumber (key : string) (i : nat) :
  array_index key = Some i → ToNumber (Some key) = Some (Z.of_nat i).
Proof.
  intros H. apply array_index_parse in H.
  destruct (parse_nat key) as [n|] eqn:Hn; [|discriminate H].
  injection H as <-. rewrite (ToNumber_parse key n Hn).
  apply parse_nat_nonneg in Hn. f_equal. lia.
Qed.

Lemma host_splice_index (items : list value) (key : string) (i : nat)
    (removeCount : Z) (add : list value) :
  array_index key = Some i →
  host_splice items (Some key) removeCount add =
  js_splice items (Z.of_nat i) removeCount add.
Proof.
  intros H. unfold host_splice. rewrite (array_index_ToNumber key i H).
  reflexivity.
Qed.

Lemma host_splice_insert (items : list value) (index : option string)
    (x : value) :
  ∃ target, host_splice items index 0 [x] = js_splice items target 0 [x].
Proof.
  unfold host_splice. destruct (ToNumber index) as [t|]; eexists; reflexivity.
Qed.

Lemma array_index_not_empty (key : string) (i : nat) :
  array_index key = Some i → String.eqb key "" = false.
Proof. destruct key; [discriminate|reflexivity]. Qed.

Lemma get_at_member (items : list value) (key : string) (i : nat) :
  array_index key = Some i →
  get_at (VArr items) [key] = default VUndefined (items !! i).
Proof.
  intros H. simpl. rewrite (array_index_not_empty key i H). rewrite H. reflexivity.
Qed.

(** * The properties of the specification *)

(** C1.  With the session's collection holding [a; b; c; d], a drag started
    on the item at index 0 followed by a drag-enter on the element at index
    2 leaves the collection equal to [b; c; a; d], and a drag started on the
    item at index 3 followed by a drag-enter on the element at index 0
    leaves it equal to [d; a; b; c]: same owner [r], same collection [arr],
    any values. *)
Theorem C1_move_in_four (st : State) (hs ht ms mt : Node) (r : Owner)
    (arr kps kpt : string) (a b c d : value) :
  resolve st hs = Some ms →
  resolve st ht = Some mt →
  getContext st !! ms = Some {| c_ractive := r; c_resolve := kps; c_resolve_up := arr |} →
  getContext st !! mt = Some {| c_ractive := r; c_resolve := kpt; c_resolve_up := arr |} →
  value_at st r arr = VArr [a; b; c; d] →
  (splitKeypath kps = (splitKeypath arr ++ ["0"])%list →
   splitKeypath kpt = (splitKeypath arr ++ ["2"])%list →
   ∃ st', drag_and_enter hs ht st = (Ok tt, st') ∧
          value_at st' r arr = VArr [b; c; a; d]) ∧
  (splitKeypath kps = (splitKeypath arr ++ ["3"])%list →
   splitKeypath kpt = (splitKeypath arr ++ ["0"])%list →
   ∃ st', drag_and_enter hs ht st = (Ok tt, st') ∧
          value_at st' r arr = VArr [d; a; b; c]).
Proof.
  intros Hs Ht Hcs Hct Harr. split; intros Hks Hkt.
  - destruct (drag_and_enter_moves st hs ht ms mt r arr kps kpt "0" "2" [a; b; c; d])
      as (st' & Hrun & Hval); try assumption; [discriminate|].
    exists st'. split; [exact Hrun|]. rewrite Hval. reflexivity.
  - destruct (drag_and_enter_moves st hs ht ms mt r arr kps kpt "3" "0" [a; b; c; d])
      as (st' & Hrun & Hval); try assumption; [discriminate|].
    exists st'. split; [exact Hrun|]. rewrite Hval. reflexivity.
Qed.

Lemma C1_move_in_four_witness :
  (∃ st', drag_and_enter 10%nat 12%nat
            (page_ready (VStr "a") (VStr "b") (VStr "c") (VStr "d")) = (Ok tt, st') ∧
          value_at st' 0%nat "list" = VArr [VStr "b"; VStr "c"; VStr "a"; VStr "d"]) ∧
  (∃ st', drag_and_enter 13%nat 10%nat
            (page_ready (VStr "a") (VStr "b") (VStr "c") (VStr "d")) = (Ok tt, st') ∧
          value_at st' 0%nat "list" = VArr [VStr "d"; VStr "a"; VStr "b"; VStr "c"]).
Proof.
  split.
  - refine (proj1 (C1_move_in_four
             (page_ready (VStr "a") (VStr "b") (VStr "c") (VStr "d"))
             10%nat 12%nat 10%nat 12%nat 0%nat "list" "list.0" "list.2"
             (VStr "a") (VStr "b") (VStr "c") (VStr "d") _ _ _ _ _) _ _);
      vm_compute; reflexivity.
  - refine (proj2 (C1_move_in_four
             (page_ready (VStr "a") (VStr "b") (VStr "c") (VStr "d"))
             13%nat 10%nat 13%nat 10%nat 0%nat "list" "list.3" "list.0"
             (VStr "a") (VStr "b") (VStr "c") (VStr "d") _ _ _ _ _) _ _);
      vm_compute; reflexivity.
Defined.

(** C2.  A drag-enter that reorders (same owner, same collection, a target
    position other than the source's) issues exactly one removal of one
    element, at the index that is the last segment of the source keypath as
    it was before the update, and after it exactly one insertion, at the
    index that is the last segment of the target's keypath, which has become
    the source keypath; the value inserted is the one read at the source
    keypath before the removal.  Source and target are positions of the
    collection: their keypaths are the collection's keypath followed by an
    index.  What the handler calls after the two splices is no splice. *)
Theorem C2_remove_then_insert (st : State) (this me : Node) (c : Ctx)
    (skp seg target_seg : string) (i j : nat) (items : list value) :
  resolve st this = Some me →
  getContext st !! me = Some c →
  ractive st = Some (c_ractive c) →
  sourceArray st = Some (c_resolve_up c) →
  sourceKeypath st = Some skp →
  skp ≠ c_resolve c →
  value_at st (c_ractive c) (c_resolve_up c) = VArr items →
  splitKeypath skp = (splitKeypath (c_resolve_up c) ++ [seg])%list →
  array_index seg = Some i →
  splitKeypath (c_resolve c) = (splitKeypath (c_resolve_up c) ++ [target_seg])%list →
  array_index target_seg = Some j →
  ∃ st' fired,
    dragenterHandler this st = (Ok tt, st') ∧
    calls st' =
      (calls st ++
       [PreventDefault; DropEffect "move";
        Splice (c_ractive c) (c_resolve_up c) (Some seg) 1 [];
        Splice (c_ractive c) (c_resolve_up c) (Some target_seg) 0
          [value_at st (c_ractive c) skp]] ++
       fired)%list ∧
    (∀ k, k ∈ fired → is_fire k = true) ∧
    value_at st (c_ractive c) skp = default VUndefined (items !! i) ∧
    sourceKeypath st' = Some (c_resolve c) ∧
    last_segment (splitKeypath (c_resolve c)) = Some target_seg ∧
    value_at st' (c_ractive c) (c_resolve_up c) =
      VArr (js_splice (js_splice items (Z.of_nat i) 1 []) (Z.of_nat j) 0
              [value_at st (c_ractive c) skp]).
Proof.
  intros Hres Hctx Hr Ha Hk Hne Harr Hsplit Hseg Htsplit Htseg.
  assert (Hsrc : value_at st (c_ractive c) skp = default VUndefined (items !! i)).
  { unfold value_at in *. rewrite Hsplit, get_at_app, Harr.
    apply get_at_member. exact Hseg. }
  destruct (dragenter_reorder st this me c skp items)
    as (st' & Hrun & Hval & Hkey & _ & _ & _ & fired & Hcalls & Hfired);
    try assumption.
  exists st', fired.
  rewrite Hsplit, Htsplit, !last_segment_snoc in Hcalls.
  split; [exact Hrun|]. split; [exact Hcalls|]. split.
  { intros k Hin. destruct Hfired as [-> | (name & _ & ->)].
    - inversion Hin.
    - apply list_elem_of_singleton in Hin. subst k. reflexivity. }
  split; [exact Hsrc|]. split; [exact Hkey|]. split.
  { rewrite Htsplit. apply last_segment_snoc. }
  rewrite Hval. unfold moved. rewrite Hsplit, Htsplit, !last_segment_snoc.
  rewrite (host_splice_index _ seg i), (host_splice_index _ target_seg j)
    by assumption.
  reflexivity.
Qed.

Lemma C2_remove_then_insert_witness :
  let st := (dragstartHandler 10%nat
               (page_ready (VStr "a") (VStr "b") (VStr "c") (VStr "d"))).2 in
  ∃ st' fired,
    dragenterHandler 12%nat st = (Ok tt, st') ∧
    calls st' =
      (calls st ++
       [PreventDefault; DropEffect "move";
        Splice 0%nat "list" (Some "0") 1 [];
        Splice 0%nat "list" (Some "2") 0 [VStr "a"]] ++ fired)%list ∧
    (∀ k, k ∈ fired → is_fire k = true) ∧
    VStr "a" = VStr "a" ∧
    sourceKeypath st' = Some "list.2" ∧
    Some "2" = Some "2" ∧
    value_at st' 0%nat "list" = VArr [VStr "b"; VStr "c"; VStr "a"; VStr "d"].
Proof.
  exact (C2_remove_then_insert
           (dragstartHandler 10%nat
              (page_ready (VStr "a") (VStr "b") (VStr "c") (VStr "d"))).2
           12%nat 12%nat (item_context 0%nat "list" 2%nat) "list.0" "0" "2"
           0%nat 2%nat [VStr "a"; VStr "b"; VStr "c"; VStr "d"]
           eq_refl eq_refl eq_refl eq_refl eq_refl
           ltac:(vm_compute; discriminate) eq_refl eq_refl eq_refl eq_refl
           eq_refl).
Defined.



(** C4.  A drag-enter on an element that resolves to a collection other
    than the session's source collection issues no reorder: the event is
    answered with [preventDefault] only, and the data of every instance, so
    both collections, stays as it was. *)
Theorem C4_foreign_collection_ignored (st : State) (this me : Node) (c : Ctx) :
  resolve st this = Some me →
  getContext st !! me = Some c →
  Some (c_resolve_up c) ≠ sourceArray st →
  ∃ st',
    dragenterHandler this st = (Ok tt, st') ∧
    data st' = data st ∧
    (∀ r keypath, value_at st' r keypath = value_at st r keypath) ∧
    session st' = session st ∧
    classList st' = classList st ∧
    calls st' = (calls st ++ [PreventDefault])%list.
Proof.
  intros Hres Hctx Hne. exists (ignored st). split.
  - destruct (decide (Some (c_ractive c) = ractive st)) as [Heq|Hown].
    + apply (dragenter_foreign_collection st this me c); assumption.
    + apply (dragenter_foreign_owner st this me c); assumption.
  - repeat split; reflexivity.
Qed.

Lemma C4_foreign_collection_ignored_witness :
  let st := (dragstartHandler 10%nat
               (page_ready (VStr "a") (VStr "b") (VStr "c") (VStr "d"))).2 in
  ∃ st',
    dragenterHandler 21%nat st = (Ok tt, st') ∧
    data st' = data st ∧
    (∀ r keypath, value_at st' r keypath = value_at st r keypath) ∧
    session st' = session st ∧
    classList st' = classList st ∧
    calls st' = (calls st ++ [PreventDefault])%list.
Proof.
  exact (C4_foreign_collection_ignored
           (dragstartHandler 10%nat
              (page_ready (VStr "a") (VStr "b") (VStr "c") (VStr "d"))).2
           21%nat 21%nat (item_context 0%nat "other" 1%nat)
           eq_refl eq_refl ltac:(vm_compute; discriminate)).
Defined.

(** C5.  A drag-enter on an element owned by an instance other than the
    session's owner is ignored without an error and without a mutation: the
    data of every instance stays as it was, so a drag in one bound view
    never changes the data of another. *)
Theorem C5_foreign_owner_ignored (st : State) (this me : Node) (c : Ctx) :
  resolve st this = Some me →
  getContext st !! me = Some c →
  Some (c_ractive c) ≠ ractive st →
  ∃ st',
    dragenterHandler this st = (Ok tt, st') ∧
    data st' = data st ∧
    (∀ r keypath, value_at st' r keypath = value_at st r keypath) ∧
    session st' = session st ∧
    classList st' = classList st ∧
    calls st' = (calls st ++ [PreventDefault])%list.
Proof.
  intros Hres Hctx Hne. exists (ignored st). split.
  - apply (dragenter_foreign_owner st this me c); assumption.
  - repeat split; reflexivity.
Qed.

Lemma C5_foreign_owner_ignored_witness :
  let st := (dragstartHandler 10%nat
               (page_ready (VStr "a") (VStr "b") (VStr "c") (VStr "d"))).2 in
  ∃ st',
    dragenterHandler 31%nat st = (Ok tt, st') ∧
    data st' = data st ∧
    (∀ r keypath, value_at st' r keypath = value_at st r keypath) ∧
    session st' = session st ∧
    classList st' = classList st ∧
    calls st' = (calls st ++ [PreventDefault])%list.
Proof.
  exact (C5_foreign_owner_ignored
           (dragstartHandler 10%nat
              (page_ready (VStr "a") (VStr "b") (VStr "c") (VStr "d"))).2
           31%nat 31%nat (item_context 1%nat "list" 1%nat)
           eq_refl eq_refl ltac:(vm_compute; discriminate)).
Defined.

(** ** Which computations can throw the plugin's error *)

Lemma never_invalid_bind {A B : Type} (m : M A) (f : A → M B) :
  never_invalid m → (∀ a, never_invalid (f a)) → never_invalid (m ≫= f).
Proof.
  intros Hm Hf st. unfold mbind, M_bind. specialize (Hm st).
  destruct (m st) as [[a|e] st']; simpl in *; [apply Hf|].
  intros H. apply Hm. congruence.
Qed.

Lemma never_invalid_ret {A : Type} (a : A) : never_invalid (mret a).
Proof. intros st. discriminate. Qed.

Lemma never_invalid_gets {A : Type} (f : State → A) : never_invalid (gets f).
Proof. intros st. discriminate. Qed.

Lemma never_invalid_modify (f : State → State) : never_invalid (modify f).
Proof. intros st. discriminate. Qed.

Lemma never_invalid_defined {A : Type} (o : option A) : never_invalid (defined o).
Proof. intros st. destruct o; discriminate. Qed.

Lemma never_invalid_host {A : Type} : never_invalid (@throw A HostError).
Proof. intros st. discriminate. Qed.

Lemma token_error_dom (token : string) (e : exn) :
  token_error token = Some e → e = SyntaxError ∨ e = InvalidCharacterError.
Proof.
  unfold token_error. destruct (String.eqb token "").
  - intros [= <-]. left. reflexivity.
  - destruct (has_whitespace token); [|discriminate].
    intros [= <-]. right. reflexivity.
Qed.

Lemma never_invalid_classList_add (n : Node) (token : string) :
  never_invalid (classList_add n token).
Proof.
  intros st. unfold classList_add.
  destruct (token_error token) as [e|] eqn:He; [|discriminate].
  destruct (token_error_dom token e He) as [-> | ->]; discriminate.
Qed.

Lemma never_invalid_classList_remove (n : Node) (token : string) :
  never_invalid (classList_remove n token).
Proof.
  intros st. unfold classList_remove.
  destruct (token_error token) as [e|] eqn:He; [|discriminate].
  destruct (token_error_dom token e He) as [-> | ->]; discriminate.
Qed.

Ltac never_invalid_steps :=
  repeat first
    [ apply never_invalid_bind
    | apply never_invalid_classList_add
    | apply never_invalid_classList_remove
    | apply never_invalid_ret
    | apply never_invalid_gets
    | apply never_invalid_modify
    | apply never_invalid_defined
    | apply never_invalid_host
    | match goal with
      | |- ∀ _, _ => intro
      | |- never_invalid (if ?b then _ else _) => destruct b
      | |- never_invalid (match ?v with VArr _ => _ | _ => _ end) => destruct v
      end ].

Lemma never_invalid_splice (r : Owner) (keypath : string) (index : option string)
    (removeCount : Z) (add : list value) :
  never_invalid (ractive_splice r keypath index removeCount add).
Proof.
  unfold ractive_splice, ractive_get, log. never_invalid_steps.
Qed.

Lemma never_invalid_getNodeToMove (h : Node) : never_invalid (getNodeToMove h).
Proof. unfold getNodeToMove. never_invalid_steps. Qed.

Lemma never_invalid_dragenterHandler (this : Node) :
  never_invalid (dragenterHandler this).
Proof.
  unfold dragenterHandler, Ractive_getContext, dataset_targetClass,
    ractive_get, ractive_fire, log.
  apply never_invalid_bind; [apply never_invalid_getNodeToMove|].
  never_invalid_steps; try apply never_invalid_splice.
  all: never_invalid_steps; try apply never_invalid_splice.
  all: never_invalid_steps.
Qed.

Lemma never_invalid_removeTargetClass (this : Node) :
  never_invalid (removeTargetClass this).
Proof.
  unfold removeTargetClass, dataset_targetClass, log.
  apply never_invalid_bind; [apply never_invalid_getNodeToMove|].
  never_invalid_steps.
Qed.

Lemma never_invalid_preventDefault (this : Node) :
  never_invalid (preventDefault this).
Proof. unfold preventDefault, log. never_invalid_steps. Qed.

Lemma never_invalid_sortable (node : Node) (sel targetClass name : value) :
  never_invalid (sortable node sel targetClass name).
Proof.
  intros st. rewrite sortable_run.
  destruct (handle st node sel); [|destruct (refuses st sel)]; discriminate.
Qed.

Lemma never_invalid_teardown (node : Node) : never_invalid (teardown node).
Proof. intros st. rewrite teardown_run. discriminate. Qed.

Lemma resolve_unchanged (st st' : State) (h : Node) :
  unchanged st st' → resolve st' h = resolve st h.
Proof. intros (Hm & _). unfold resolve. rewrite Hm. reflexivity. Qed.

Lemma value_at_unchanged (st st' : State) (r : Owner) (keypath : string) :
  unchanged st st' → value_at st' r keypath = value_at st r keypath.
Proof. intros (_ & _ & Hd & _). unfold value_at, root. rewrite Hd. reflexivity. Qed.

(** C6.  Attaching to an element whose resolved data is not an array does
    not fail: [sortable] returns the handle, with the plugin's listeners on
    it, whatever the data holds.  The error is thrown by the drag-start
    handler, out of the handler, when it runs on that handle.  Nothing else
    throws it: not the listeners registered for the other events, not
    [sortable], not [teardown]. *)
Theorem C6_invalid_binding_raised_at_dragstart (st : State) (node h : Node)
    (sel targetClass name : value) (c : Ctx) :
  handle st node sel = Some h →
  resolve st h = None →
  getContext st !! node = Some c →
  Array_isArray (value_at st (c_ractive c) (c_resolve_up c)) = false →
  ∃ st1,
    sortable node sel targetClass name st = (Ok h, st1) ∧
    (∀ l, l ∈ listeners_on st1 h ↔ l ∈ listeners_on st h ∨ l ∈ plugin_listeners) ∧
    dragstartHandler h st1 = (Throw (Error errorMessage), refused c st1) ∧
    (∀ ty hd, (ty, hd) ∈ plugin_listeners → ty ≠ Dragstart →
              ∀ this, never_invalid (run_handler hd this)) ∧
    (∀ n s t e, never_invalid (sortable n s t e)) ∧
    (∀ n, never_invalid (teardown n)).
Proof.
  intros Hh Hfresh Hctx Harr.
  set (st0 := registered node (Some h) targetClass name st).
  exists (wired h st0). split; [|split; [|split; [|split; [|split]]]].
  - rewrite sortable_run, Hh. reflexivity.
  - intros l. rewrite wired_elem. reflexivity.
  - pose proof (wired_unchanged h st0) as Hw.
    apply (dragstart_invalid (wired h st0) h node c).
    + rewrite (resolve_unchanged st0) by exact Hw.
      apply resolve_registered. exact Hfresh.
    + destruct Hw as (_ & Hg & _). rewrite Hg. exact Hctx.
    + rewrite (value_at_unchanged st0) by exact Hw. exact Harr.
  - intros ty hd Hin Hty this.
    unfold plugin_listeners in Hin.
    rewrite !elem_of_cons, elem_of_nil in Hin.
    destruct Hin as [Heq|[Heq|[Heq|[Heq|[Heq|[]]]]]]; inversion Heq; subst; simpl.
    + contradiction.
    + apply never_invalid_removeTargetClass.
    + apply never_invalid_dragenterHandler.
    + apply never_invalid_preventDefault.
    + apply never_invalid_removeTargetClass.
  - intros n s t e. apply never_invalid_sortable.
  - intros n. apply never_invalid_teardown.
Qed.

Lemma C6_invalid_binding_raised_at_dragstart_witness :
  let st := page_ready (VStr "a") (VStr "b") (VStr "c") (VStr "d") in
  ∃ st1,
    sortable 40%nat VUndefined VUndefined VUndefined st = (Ok 40%nat, st1) ∧
    (∀ l, l ∈ listeners_on st1 40%nat ↔
          l ∈ listeners_on st 40%nat ∨ l ∈ plugin_listeners) ∧
    dragstartHandler 40%nat st1 =
      (Throw (Error errorMessage),
       refused {| c_ractive := 0%nat; c_resolve := "title"; c_resolve_up := "" |} st1) ∧
    (∀ ty hd, (ty, hd) ∈ plugin_listeners → ty ≠ Dragstart →
              ∀ this, never_invalid (run_handler hd this)) ∧
    (∀ n s t e, never_invalid (sortable n s t e)) ∧
    (∀ n, never_invalid (teardown n)).
Proof.
  exact (C6_invalid_binding_raised_at_dragstart
           (page_ready (VStr "a") (VStr "b") (VStr "c") (VStr "d"))
           40%nat 40%nat VUndefined VUndefined VUndefined
           {| c_ractive := 0%nat; c_resolve := "title"; c_resolve_up := "" |}
           eq_refl eq_refl eq_refl eq_refl).
Defined.



(** ** After teardown *)

Lemma no_elem_nil {A : Type} (l : list A) : (∀ x, x ∉ l) → l = [].
Proof.
  destruct l as [|x l]; [reflexivity|]. intros H.
  exfalso. apply (H x). apply elem_of_cons. left. reflexivity.
Qed.

Lemma dispatch_no_listeners (st : State) (ty : event_type) (h : Node) :
  listeners_on st h = [] → dispatch ty h st = ([], st).
Proof. intros H. unfold dispatch. rewrite H. reflexivity. Qed.

(** C8, as the code has it.  [teardown] removes the listeners and leaves the
    registry alone: after it, the registry resolves every handle as before,
    the torn-down one included, and only a handle that was never attached
    fails to resolve (a [TypeError]).  With the plugin's listeners gone, a
    native drag event on the detached element runs no listener: nothing is
    looked up, nothing changes, nothing is thrown. *)
Theorem C8_teardown_keeps_registry (st : State) (h m : Node) :
  resolve st h = Some m →
  (∀ l, l ∈ listeners_on st h → l ∈ plugin_listeners) →
  ∃ st1,
    teardown h st = (Ok tt, st1) ∧
    (∀ h', resolve st1 h' = resolve st h') ∧
    getNodeToMove h st1 = (Ok m, st1) ∧
    (∀ h', resolve st1 h' = None → getNodeToMove h' st1 = (Throw TypeError, st1)) ∧
    listeners_on st1 h = [] ∧
    (∀ ty, dispatch ty h st1 = ([], st1)).
Proof.
  intros Hres Hplugin. exists (unwired h st).
  pose proof (unwired_unchanged h st) as Hu.
  assert (Hnone : listeners_on (unwired h st) h = []).
  { apply no_elem_nil. intros l Hl. apply unwired_elem in Hl as [Hin Hnot].
    apply Hnot, Hplugin, Hin. }
  split; [apply teardown_run|]. split; [|split; [|split; [|split]]].
  - intros h'. apply resolve_unchanged. exact Hu.
  - rewrite getNodeToMove_resolve, (resolve_unchanged st) by exact Hu.
    rewrite Hres. reflexivity.
  - intros h' Hh'. rewrite getNodeToMove_resolve, Hh'. reflexivity.
  - exact Hnone.
  - intros ty. apply dispatch_no_listeners. exact Hnone.
Qed.

Lemma C8_teardown_keeps_registry_witness :
  let st := page_ready (VStr "a") (VStr "b") (VStr "c") (VStr "d") in
  ∃ st1,
    teardown 10%nat st = (Ok tt, st1) ∧
    (∀ h', resolve st1 h' = resolve st h') ∧
    getNodeToMove 10%nat st1 = (Ok 10%nat, st1) ∧
    (∀ h', resolve st1 h' = None → getNodeToMove h' st1 = (Throw TypeError, st1)) ∧
    listeners_on st1 10%nat = [] ∧
    (∀ ty, dispatch ty 10%nat st1 = ([], st1)).
Proof.
  refine (C8_teardown_keeps_registry
            (page_ready (VStr "a") (VStr "b") (VStr "c") (VStr "d"))
            10%nat 10%nat eq_refl _).
  intros l Hl. vm_compute in Hl. exact Hl.
Defined.

(** C8 as stated fails: on the page with every item decorated, the handle
    10 still resolves after its teardown. *)
Lemma C8_resolve_after_teardown_counterexample :
  let st := (teardown 10%nat
               (page_ready (VStr "a") (VStr "b") (VStr "c") (VStr "d"))).2 in
  (getNodeToMove 10%nat st).1 = Ok 10%nat ∧
  ¬ (∃ e, (getNodeToMove 10%nat st).1 = Throw e).
Proof.
  split; [reflexivity|]. intros [e He]. vm_compute in He. discriminate He.
Qed.

(** ** Drag-end and drop *)


Lemma remove_class_frame (n : Node) (token : string) (st : State) :
  data (remove_class n token st) = data st ∧
  session (remove_class n token st) = session st ∧
  calls (remove_class n token st) = calls st.
Proof. unfold remove_class. case_bool_decide; repeat split; reflexivity. Qed.

Lemma removeTargetClass_run (st : State) (this node : Node) :
  resolve st this = Some node →
  removeTargetClass this st =
  match token_error (target_token st node) with
  | Some e => (Throw e, st)
  | None =>
      (Ok tt,
       with_calls
         (calls (remove_class node (target_token st node) st) ++ [StopPropagation])%list
         (remove_class node (target_token st node) st))
  end.
Proof.
  intros Hres. unfold removeTargetClass.
  erewrite bind_ok by (rewrite getNodeToMove_resolve, Hres; reflexivity).
  unfold dataset_targetClass, classList_remove, target_token. unfold_m.
  destruct (token_error (default "undefined" (targetClass_of st !! node)));
    reflexivity.
Qed.




(** ** The event name *)

Lemma sortable_sets_event_name (st : State) (node : Node)
    (sel targetClass name : value) :
  refuses st sel = false →
  eventNameToFire (sortable node sel targetClass name st).2 = name.
Proof.
  intros Hsel.
  rewrite sortable_run, Hsel. destruct (handle st node sel) as [h|]; cbn [snd].
  - destruct (wired_unchanged h (registered node (Some h) targetClass name st))
      as (_ & _ & _ & _ & _ & _ & He & _).
    rewrite He. reflexivity.
  - reflexivity.
Qed.


(** * Further properties of the plugin *)

(** ** Lookups that fail *)

Lemma bind_raise {A B : Type} (m : M A) (f : A → M B) (st st' : State) (e : exn) :
  m st = (Throw e, st') → (m ≫= f) st = (Throw e, st').
Proof. intros H. unfold mbind, M_bind. rewrite H. reflexivity. Qed.

Lemma handlers_on_unknown_handle (st : State) (this : Node) :
  resolve st this = None →
  dragstartHandler this st = (Throw TypeError, st) ∧
  dragenterHandler this st = (Throw TypeError, st) ∧
  removeTargetClass this st = (Throw TypeError, st).
Proof.
  intros Hres.
  assert (H : getNodeToMove this st = (Throw TypeError, st))
    by (rewrite getNodeToMove_resolve, Hres; reflexivity).
  repeat split.
  - unfold dragstartHandler. apply bind_raise. exact H.
  - unfold dragenterHandler. apply bind_raise. exact H.
  - unfold removeTargetClass. apply bind_raise. exact H.
Qed.

(** A listener running on a node that no entry of the registry has as its
    draggable node throws a [TypeError] at once: nothing is changed, and a
    drag-enter does not even call [preventDefault]. *)
Theorem unknown_handle_throws (st : State) (this : Node) :
  resolve st this = None →
  dragstartHandler this st = (Throw TypeError, st) ∧
  dragenterHandler this st = (Throw TypeError, st) ∧
  removeTargetClass this st = (Throw TypeError, st).
Proof.
  intros Hres.
  assert (H : getNodeToMove this st = (Throw TypeError, st))
    by (rewrite getNodeToMove_resolve, Hres; reflexivity).
  split; [|split].
  - unfold dragstartHandler. apply bind_raise. exact H.
  - unfold dragenterHandler. apply bind_raise. exact H.
  - unfold removeTargetClass. apply bind_raise. exact H.
Qed.

Lemma unknown_handle_throws_witness :
  let st := page_ready (VStr "a") (VStr "b") (VStr "c") (VStr "d") in
  dragstartHandler 40%nat st = (Throw TypeError, st) ∧
  dragenterHandler 40%nat st = (Throw TypeError, st) ∧
  removeTargetClass 40%nat st = (Throw TypeError, st).
Proof.
  exact (unknown_handle_throws
           (page_ready (VStr "a") (VStr "b") (VStr "c") (VStr "d")) 40%nat eq_refl).
Defined.

Lemma handlers_without_context (st : State) (this me : Node) :
  resolve st this = Some me →
  getContext st !! me = None →
  dragstartHandler this st = (Throw TypeError, st) ∧
  dragenterHandler this st = (Throw TypeError, ignored st).
Proof.
  intros Hres Hctx. split.
  - unfold dragstartHandler.
    erewrite bind_ok by (rewrite getNodeToMove_resolve, Hres; reflexivity).
    unfold_m. unfold Ractive_getContext. unfold_m. simpl. rewrite Hctx. reflexivity.
  - unfold dragenterHandler.
    erewrite bind_ok by (rewrite getNodeToMove_resolve, Hres; reflexivity).
    unfold_m. unfold Ractive_getContext. unfold_m. simpl. rewrite Hctx. reflexivity.
Qed.

(** When the movable element has no Ractive context, a drag-start throws a
    [TypeError] before it has stored anything, and a drag-enter throws it
    after [preventDefault], its only effect. *)
Theorem missing_context_throws (st : State) (this me : Node) :
  resolve st this = Some me →
  getContext st !! me = None →
  dragstartHandler this st = (Throw TypeError, st) ∧
  dragenterHandler this st = (Throw TypeError, ignored st).
Proof.
  intros Hres Hctx.
  assert (H : getNodeToMove this st = (Ok me, st))
    by (rewrite getNodeToMove_resolve, Hres; reflexivity).
  split.
  - unfold dragstartHandler. erewrite bind_ok by exact H.
    unfold_m. unfold Ractive_getContext. unfold_m. simpl. rewrite Hctx.
    reflexivity.
  - unfold dragenterHandler. erewrite bind_ok by exact H.
    unfold_m. unfold Ractive_getContext. unfold_m. simpl. rewrite Hctx.
    reflexivity.
Qed.

Lemma missing_context_throws_witness :
  let st := (sortable 50%nat VUndefined VUndefined VUndefined
               (page (VStr "a") (VStr "b") (VStr "c") (VStr "d"))).2 in
  dragstartHandler 50%nat st = (Throw TypeError, st) ∧
  dragenterHandler 50%nat st = (Throw TypeError, ignored st).
Proof.
  exact (missing_context_throws
           (sortable 50%nat VUndefined VUndefined VUndefined
              (page (VStr "a") (VStr "b") (VStr "c") (VStr "d"))).2
           50%nat 50%nat eq_refl eq_refl).
Defined.

(** ** Attaching with a selector that finds nothing *)

(** When a selector is given that the DOM parses and [querySelector] finds
    nothing, [sortable] throws a [TypeError], but only after it has pushed
    an entry without a draggable node, recorded the class name and
    overwritten the event name.  No listener is registered, and the
    registry answers every handle as before. *)
Theorem sortable_without_handle (st : State) (node : Node)
    (sel targetClass name : value) :
  refuses st sel = false →
  handle st node sel = None →
  ∃ st',
    sortable node sel targetClass name st = (Throw TypeError, st') ∧
    nodeMapping st' =
      (nodeMapping st ++ [{| nodeToMove := node; draggableNode := None |}])%list ∧
    (∀ h, resolve st' h = resolve st h) ∧
    eventNameToFire st' = name ∧
    targetClass_of st' !! node
      = Some (ToString (js_or targetClass (VStr "droptarget"))) ∧
    listeners st' = listeners st ∧
    draggable st' = draggable st.
Proof.
  intros Hsel Hh. exists (registered node None targetClass name st).
  split; [rewrite sortable_run, Hh, Hsel; reflexivity|].
  repeat split.
  - intros h. unfold resolve, registered. simpl. rewrite find_app_first.
    destruct (List.find _ (nodeMapping st)); reflexivity.
  - unfold registered. simpl. apply lookup_insert_eq.
Qed.

Lemma sortable_without_handle_witness :
  let st := page (VStr "a") (VStr "b") (VStr "c") (VStr "d") in
  ∃ st',
    sortable 10%nat (VStr ".grip") VUndefined (VStr "moved") st = (Throw TypeError, st') ∧
    nodeMapping st' =
      (nodeMapping st ++ [{| nodeToMove := 10%nat; draggableNode := None |}])%list ∧
    (∀ h, resolve st' h = resolve st h) ∧
    eventNameToFire st' = VStr "moved" ∧
    targetClass_of st' !! 10%nat = Some "droptarget" ∧
    listeners st' = listeners st ∧
    draggable st' = draggable st.
Proof.
  exact (sortable_without_handle
           (page (VStr "a") (VStr "b") (VStr "c") (VStr "d"))
           10%nat (VStr ".grip") VUndefined (VStr "moved") eq_refl eq_refl).
Defined.

(** ** What a reorder does to the array *)

Lemma value_at_member (st : State) (r : Owner) (arr keypath seg : string)
    (items : list value) (i : nat) :
  value_at st r arr = VArr items →
  splitKeypath keypath = (splitKeypath arr ++ [seg])%list →
  array_index seg = Some i →
  value_at st r keypath = default VUndefined (items !! i).
Proof.
  intros Harr Hk Hi. unfold value_at in *.
  rewrite Hk, get_at_app, Harr. apply get_at_member. exact Hi.
Qed.

(** A reorder loses and duplicates nothing: when the session's source
    keypath addresses a member of the array, the array after the drag-enter
    is a permutation of the array before it, wherever the target keypath
    points. *)
Theorem reorder_is_permutation (st : State) (this me : Node) (c : Ctx)
    (skp seg : string) (i : nat) (items : list value) :
  resolve st this = Some me →
  getContext st !! me = Some c →
  ractive st = Some (c_ractive c) →
  sourceArray st = Some (c_resolve_up c) →
  sourceKeypath st = Some skp →
  skp ≠ c_resolve c →
  value_at st (c_ractive c) (c_resolve_up c) = VArr items →
  splitKeypath skp = (splitKeypath (c_resolve_up c) ++ [seg])%list →
  array_index seg = Some i →
  (i < length items)%nat →
  ∃ st' items',
    dragenterHandler this st = (Ok tt, st') ∧
    value_at st' (c_ractive c) (c_resolve_up c) = VArr items' ∧
    items' ≡ₚ items ∧
    length items' = length items.
Proof.
  intros Hres Hctx Hr Ha Hk Hne Harr Hsplit Hseg Hi.
  destruct (dragenter_reorder st this me c skp items)
    as (st' & Hrun & Hval & _); try assumption.
  destruct (lookup_lt_is_Some_2 items i Hi) as [x Hx].
  assert (Hperm : moved items skp (c_resolve c) (value_at st (c_ractive c) skp)
                  ≡ₚ items).
  { unfold moved.
    rewrite (value_at_member st (c_ractive c) (c_resolve_up c) skp seg items i)
      by assumption.
    rewrite Hsplit, last_segment_snoc, (host_splice_index _ seg i) by exact Hseg.
    rewrite Hx. simpl.
    destruct (host_splice_insert (js_splice items (Z.of_nat i) 1 [])
                (last_segment (splitKeypath (c_resolve c))) x) as [target ->].
    apply js_splice_move_perm. exact Hx. }
  eexists st', _. split; [exact Hrun|]. split; [exact Hval|].
  split; [exact Hperm|]. apply Permutation_length. exact Hperm.
Qed.

Lemma reorder_is_permutation_witness :
  let st := (dragstartHandler 13%nat
               (page_ready (VStr "a") (VStr "b") (VStr "c") (VStr "d"))).2 in
  ∃ st' items',
    dragenterHandler 11%nat st = (Ok tt, st') ∧
    value_at st' 0%nat "list" = VArr items' ∧
    items' ≡ₚ [VStr "a"; VStr "b"; VStr "c"; VStr "d"] ∧
    length items' = 4%nat.
Proof.
  exact (reorder_is_permutation
           (dragstartHandler 13%nat
              (page_ready (VStr "a") (VStr "b") (VStr "c") (VStr "d"))).2
           11%nat 11%nat (item_context 0%nat "list" 1%nat) "list.3" "3" 3%nat
           [VStr "a"; VStr "b"; VStr "c"; VStr "d"]
           eq_refl eq_refl eq_refl eq_refl eq_refl
           ltac:(vm_compute; discriminate) eq_refl eq_refl eq_refl
           ltac:(vm_compute; lia)).
Defined.

(** After a reorder between two members of the array, the moved value is
    the member at the target index, and the session's source keypath, now
    the target's keypath, addresses it: entering the same element again is
    a re-entry of the own position. *)
Theorem reorder_source_follows (st : State) (this me : Node) (c : Ctx)
    (skp seg target_seg : string) (i j : nat) (items : list value) (x : value) :
  resolve st this = Some me →
  getContext st !! me = Some c →
  ractive st = Some (c_ractive c) →
  sourceArray st = Some (c_resolve_up c) →
  sourceKeypath st = Some skp →
  skp ≠ c_resolve c →
  value_at st (c_ractive c) (c_resolve_up c) = VArr items →
  splitKeypath skp = (splitKeypath (c_resolve_up c) ++ [seg])%list →
  array_index seg = Some i →
  items !! i = Some x →
  splitKeypath (c_resolve c) = (splitKeypath (c_resolve_up c) ++ [target_seg])%list →
  array_index target_seg = Some j →
  (j < length items)%nat →
  ∃ st' items',
    dragenterHandler this st = (Ok tt, st') ∧
    value_at st' (c_ractive c) (c_resolve_up c) = VArr items' ∧
    items' !! j = Some x ∧
    sourceKeypath st' = Some (c_resolve c) ∧
    value_at st' (c_ractive c) (c_resolve c) = x.
Proof.
  intros Hres Hctx Hr Ha Hk Hne Harr Hsplit Hseg Hx Htsplit Htseg Hj.
  destruct (dragenter_reorder st this me c skp items)
    as (st' & Hrun & Hval & Hkey & _); try assumption.
  assert (Hat : moved items skp (c_resolve c) (value_at st (c_ractive c) skp) !! j
                = Some x).
  { unfold moved.
    rewrite (value_at_member st (c_ractive c) (c_resolve_up c) skp seg items i)
      by assumption.
    rewrite Hsplit, Htsplit, !last_segment_snoc.
    rewrite (host_splice_index _ seg i), (host_splice_index _ target_seg j)
      by assumption.
    rewrite Hx.
    apply js_splice_move_lookup; assumption. }
  eexists st', _. split; [exact Hrun|]. split; [exact Hval|].
  split; [exact Hat|]. split; [exact Hkey|].
  rewrite (value_at_member st' (c_ractive c) (c_resolve_up c) (c_resolve c)
             target_seg _ j Hval Htsplit Htseg).
  rewrite Hat. reflexivity.
Qed.

Lemma reorder_source_follows_witness :
  let st := (dragstartHandler 13%nat
               (page_ready (VStr "a") (VStr "b") (VStr "c") (VStr "d"))).2 in
  ∃ st' items',
    dragenterHandler 11%nat st = (Ok tt, st') ∧
    value_at st' 0%nat "list" = VArr items' ∧
    items' !! 1%nat = Some (VStr "d") ∧
    sourceKeypath st' = Some "list.1" ∧
    value_at st' 0%nat "list.1" = VStr "d".
Proof.
  exact (reorder_source_follows
           (dragstartHandler 13%nat
              (page_ready (VStr "a") (VStr "b") (VStr "c") (VStr "d"))).2
           11%nat 11%nat (item_context 0%nat "list" 1%nat) "list.3" "3" "1"
           3%nat 1%nat [VStr "a"; VStr "b"; VStr "c"; VStr "d"] (VStr "d")
           eq_refl eq_refl eq_refl eq_refl eq_refl
           ltac:(vm_compute; discriminate) eq_refl eq_refl eq_refl eq_refl
           eq_refl eq_refl ltac:(vm_compute; lia)).
Defined.

(** When the session's source keypath points past the end of the array,
    the removal takes nothing out and the insertion puts [undefined] in: the
    array grows by one member. *)
Theorem reorder_stale_source_grows (st : State) (this me : Node) (c : Ctx)
    (skp seg : string) (i : nat) (items : list value) :
  resolve st this = Some me →
  getContext st !! me = Some c →
  ractive st = Some (c_ractive c) →
  sourceArray st = Some (c_resolve_up c) →
  sourceKeypath st = Some skp →
  skp ≠ c_resolve c →
  value_at st (c_ractive c) (c_resolve_up c) = VArr items →
  splitKeypath skp = (splitKeypath (c_resolve_up c) ++ [seg])%list →
  array_index seg = Some i →
  (length items ≤ i)%nat →
  ∃ st' items',
    dragenterHandler this st = (Ok tt, st') ∧
    value_at st' (c_ractive c) (c_resolve_up c) = VArr items' ∧
    items' ≡ₚ VUndefined :: items ∧
    length items' = S (length items).
Proof.
  intros Hres Hctx Hr Ha Hk Hne Harr Hsplit Hseg Hi.
  destruct (dragenter_reorder st this me c skp items)
    as (st' & Hrun & Hval & _); try assumption.
  assert (Hperm : moved items skp (c_resolve c) (value_at st (c_ractive c) skp)
                  ≡ₚ VUndefined :: items).
  { unfold moved.
    rewrite (value_at_member st (c_ractive c) (c_resolve_up c) skp seg items i)
      by assumption.
    rewrite Hsplit, last_segment_snoc, (host_splice_index _ seg i) by exact Hseg.
    rewrite (lookup_ge_None_2 items i) by exact Hi. simpl.
    rewrite js_splice_remove_beyond by exact Hi.
    destruct (host_splice_insert items
                (last_segment (splitKeypath (c_resolve c))) VUndefined)
      as [target ->].
    apply js_splice_insert_perm. }
  eexists st', _. split; [exact Hrun|]. split; [exact Hval|].
  split; [exact Hperm|].
  apply Permutation_length in Hperm. exact Hperm.
Qed.

Lemma reorder_stale_source_grows_witness :
  let ready := page_ready (VStr "a") (VStr "b") (VStr "c") (VStr "d") in
  let st := step (Render (<[0%nat := VObj [("list", VArr [VStr "a"; VStr "b"])]]> ∅)
                    (getContext ready))
              (dragstartHandler 13%nat ready).2 in
  ∃ st' items',
    dragenterHandler 11%nat st = (Ok tt, st') ∧
    value_at st' 0%nat "list" = VArr items' ∧
    items' ≡ₚ VUndefined :: [VStr "a"; VStr "b"] ∧
    length items' = 3%nat.
Proof.
  intros ready st.
  refine (reorder_stale_source_grows st 11%nat 11%nat
            (item_context 0%nat "list" 1%nat) "list.3" "3" 3%nat
            [VStr "a"; VStr "b"] _ _ _ _ _ _ _ _ _ _).
  all: vm_compute; first [reflexivity | discriminate | lia].
Defined.

(** ** Every way a drag-enter can end *)

Lemma dragenter_reorder_refused (st : State) (this me : Node) (c : Ctx) :
  resolve st this = Some me →
  getContext st !! me = Some c →
  ractive st = Some (c_ractive c) →
  sourceArray st = Some (c_resolve_up c) →
  Some (c_resolve c) ≠ sourceKeypath st →
  Array_isArray (value_at st (c_ractive c) (c_resolve_up c)) = false →
  dragenterHandler this st =
  (Throw HostError, reorder_refused c (sourceKeypath st) st).
Proof.
  intros Hres Hctx Hr Ha Hne Harr. unfold dragenterHandler.
  erewrite bind_ok by (rewrite getNodeToMove_resolve, Hres; reflexivity).
  unfold_m. unfold Ractive_getContext, ractive_get. unfold_m.
  simpl. rewrite Hctx. simpl. rewrite Hr.
  rewrite bool_decide_eq_false_2 by (intros H; apply H; reflexivity).
  simpl. rewrite Ha.
  rewrite bool_decide_eq_false_2 by (intros H; apply H; reflexivity).
  simpl.
  rewrite bool_decide_eq_false_2 by exact Hne.
  simpl.
  erewrite ractive_splice_not_array by exact Harr.
  reflexivity.
Qed.

(** The five ways: the lookup fails; the event is ignored, the context is
    missing or the class token is refused; the own position is highlighted;
    the member is moved; the host refuses the removal. *)
Lemma dragenter_outcomes (st : State) (this : Node) :
  (dragenterHandler this st).2 = st ∨
  (dragenterHandler this st).2 = ignored st ∨
  (∃ me, (dragenterHandler this st).2
         = add_class me (target_token st me) (ignored st)) ∨
  (∃ c items,
     ractive st = Some (c_ractive c) ∧
     value_at st (c_ractive c) (c_resolve_up c) = VArr items ∧
     (dragenterHandler this st).2 = reordered c (sourceKeypath st) items st) ∨
  (∃ c, (dragenterHandler this st).2 = reorder_refused c (sourceKeypath st) st).
Proof.
  destruct (resolve st this) as [me|] eqn:Hres.
  2: { left. destruct (handlers_on_unknown_handle st this Hres) as (_ & -> & _).
       reflexivity. }
  destruct (getContext st !! me) as [c|] eqn:Hctx.
  2: { right. left.
       destruct (handlers_without_context st this me Hres Hctx) as (_ & ->).
       reflexivity. }
  destruct (decide (Some (c_ractive c) = ractive st)) as [Hr|Hr].
  2: { right. left. rewrite (dragenter_foreign_owner st this me c) by assumption.
       reflexivity. }
  destruct (decide (Some (c_resolve_up c) = sourceArray st)) as [Ha|Ha].
  2: { right. left.
       rewrite (dragenter_foreign_collection st this me c) by assumption.
       reflexivity. }
  destruct (decide (Some (c_resolve c) = sourceKeypath st)) as [Hk|Hk].
  { rewrite (dragenter_same_position st this me c)
      by first [assumption | symmetry; assumption].
    destruct (token_error (target_token st me)).
    - right. left. reflexivity.
    - right. right. left. exists me. reflexivity. }
  destruct (value_at st (c_ractive c) (c_resolve_up c)) as [| | | | |items|] eqn:Harr.
  6: { right. right. right. left. exists c, items. split; [congruence|].
       split; [exact Harr|].
       rewrite (dragenter_reorder_run st this me c items) by congruence.
       reflexivity. }
  all: right; right; right; right; exists c.
  all: rewrite (dragenter_reorder_refused st this me c)
         by first [congruence | rewrite Harr; reflexivity].
  all: reflexivity.
Qed.

(** ** What the listeners leave alone *)

Section Respects.

Variable R : State → State → Prop.
Hypothesis R_refl : ∀ st, R st st.
Hypothesis R_trans : ∀ st1 st2 st3, R st1 st2 → R st2 st3 → R st1 st3.

Lemma respects_bind {A B : Type} (m : M A) (f : A → M B) :
  respects R m → (∀ a, respects R (f a)) → respects R (m ≫= f).
Proof.
  intros Hm Hf st. unfold mbind, M_bind. specialize (Hm st).
  destruct (m st) as [[a|e] st1]; simpl in *; [|exact Hm].
  eapply R_trans; [exact Hm|]. apply Hf.
Qed.

Lemma respects_ret {A : Type} (a : A) : respects R (mret a).
Proof. intros st. apply R_refl. Qed.

Lemma respects_gets {A : Type} (f : State → A) : respects R (gets f).
Proof. intros st. apply R_refl. Qed.

Lemma respects_throw {A : Type} (e : exn) : respects R (@throw A e).
Proof. intros st. apply R_refl. Qed.

Lemma respects_defined {A : Type} (o : option A) : respects R (defined o).
Proof. intros st. destruct o; apply R_refl. Qed.

Lemma respects_modify (f : State → State) :
  (∀ st, R st (f st)) → respects R (modify f).
Proof. intros Hf st. apply Hf. Qed.

Lemma respects_getNodeToMove (h : Node) : respects R (getNodeToMove h).
Proof.
  unfold getNodeToMove.
  apply respects_bind; [apply respects_gets|]. intros item.
  apply respects_bind; [apply respects_defined|]. intros found.
  apply respects_ret.
Qed.

End Respects.

Lemma wiring_kept_refl (st : State) : wiring_kept st st.
Proof. repeat split. Qed.

Lemma wiring_kept_trans (st1 st2 st3 : State) :
  wiring_kept st1 st2 → wiring_kept st2 st3 → wiring_kept st1 st3.
Proof.
  unfold wiring_kept. intros H1 H2.
  destruct H1 as (?&?&?&?&?&?&?), H2 as (?&?&?&?&?&?&?).
  repeat split; congruence.
Qed.

Lemma host_kept_refl (st : State) : host_kept st st.
Proof. split; [apply wiring_kept_refl|reflexivity]. Qed.

Lemma host_kept_trans (st1 st2 st3 : State) :
  host_kept st1 st2 → host_kept st2 st3 → host_kept st1 st3.
Proof.
  intros [W1 D1] [W2 D2]. split.
  - eapply wiring_kept_trans; eassumption.
  - unfold data_kept in *. congruence.
Qed.

Lemma add_class_host_kept (n : Node) (token : string) (st : State) :
  host_kept st (add_class n token st).
Proof. unfold add_class. case_bool_decide; repeat split. Qed.

Lemma remove_class_host_kept (n : Node) (token : string) (st : State) :
  host_kept st (remove_class n token st).
Proof. unfold remove_class. case_bool_decide; repeat split. Qed.

Ltac host_kept_steps :=
  repeat match goal with
    | |- ∀ _, _ => intro
    | |- respects _ (if ?b then _ else _) => destruct b
    | |- respects _ (match ?o with Some _ => _ | None => _ end) => destruct o
    | |- respects _ (_ ≫= _) => apply (respects_bind host_kept host_kept_trans)
    | |- respects _ (mret _) => apply (respects_ret host_kept host_kept_refl)
    | |- respects _ (gets _) => apply (respects_gets host_kept host_kept_refl)
    | |- respects _ (throw _) => apply (respects_throw host_kept host_kept_refl)
    | |- respects _ (defined _) => apply (respects_defined host_kept host_kept_refl)
    | |- respects _ (getNodeToMove _) =>
        apply (respects_getNodeToMove host_kept host_kept_refl host_kept_trans)
    | |- respects _ (modify (remove_class _ _)) =>
        apply (respects_modify host_kept); apply remove_class_host_kept
    | |- respects _ (modify (add_class _ _)) =>
        apply (respects_modify host_kept); apply add_class_host_kept
    | |- respects _ (modify _) =>
        apply (respects_modify host_kept); intros ?; repeat split
    end.

Lemma dragstartHandler_host_kept (this : Node) :
  respects host_kept (dragstartHandler this).
Proof.
  unfold dragstartHandler, Ractive_getContext, context_get_up, ractive_get, log.
  host_kept_steps.
Qed.

Lemma removeTargetClass_host_kept (this : Node) :
  respects host_kept (removeTargetClass this).
Proof.
  unfold removeTargetClass, dataset_targetClass, classList_remove, log.
  host_kept_steps.
Qed.

Lemma preventDefault_host_kept (this : Node) :
  respects host_kept (preventDefault this).
Proof. unfold preventDefault, log. host_kept_steps. Qed.

(** Of the plugin's listeners only the drag-enter listener can change the
    host's data.  The listeners for drag-start, drag-end, drop and
    drag-over leave the data of every instance, the registry, the
    listeners and the recorded class names as they are, from whatever state
    they run and whether they return or throw. *)
Theorem only_dragenter_writes_data (this : Node) (st : State) :
  host_kept st (dragstartHandler this st).2 ∧
  host_kept st (removeTargetClass this st).2 ∧
  host_kept st (preventDefault this st).2.
Proof.
  split; [apply dragstartHandler_host_kept|].
  split; [apply removeTargetClass_host_kept|apply preventDefault_host_kept].
Qed.

Lemma dragenterHandler_kept (this : Node) (st : State) :
  (∀ r, Some r ≠ ractive st →
        data (dragenterHandler this st).2 !! r = data st !! r) ∧
  session_advanced st (dragenterHandler this st).2.
Proof.
  destruct (dragenter_outcomes st this)
    as [-> | [-> | [(me & ->) | [(c & items & Hr & Harr & ->) | (c & ->)]]]].
  - repeat split. left. reflexivity.
  - repeat split. left. reflexivity.
  - destruct (add_class_host_kept me (target_token st me) (ignored st))
      as [_ Hd].
    destruct (add_class_frame me (target_token st me) (ignored st))
      as (_ & Hs & _).
    unfold session in Hs. simpl in Hs. injection Hs as Hs1 Hs2 Hs3.
    split.
    + intros r _. rewrite Hd. reflexivity.
    + repeat split; [exact Hs1|exact Hs3|left; exact Hs2].
  - destruct (reordered_frame c (sourceKeypath st) items st Harr)
      as (_ & Hk & Ho & Ha & _ & Hd & _).
    split.
    + intros r Hne. apply Hd. congruence.
    + repeat split; [exact Ho|exact Ha|].
      right. rewrite Hk. eexists. reflexivity.
  - repeat split. left. reflexivity.
Qed.

(** ** Properties of the wiring *)

(** A property of the registry, the listeners and the recorded class names
    that [sortable] and [teardown] keep is kept by everything that can
    happen to a page: the host enters only these two when it renders, and
    the listeners touch none of the three themselves. *)
Section Wiring.

Variable P : State → Prop.
Hypothesis P_same : ∀ st st',
  nodeMapping st' = nodeMapping st →
  listeners st' = listeners st →
  targetClass_of st' = targetClass_of st →
  P st → P st'.
Hypothesis P_sortable : ∀ st node sel targetClass name,
  P st → P (sortable node sel targetClass name st).2.
Hypothesis P_teardown : ∀ st h, P st → P (teardown h st).2.

Lemma wiring_render_one (s : render_step) (st : State) :
  P st → P (render_one s st).
Proof.
  intros H.
  destruct s as [h|node selector found|node sel targetClass name|n c];
    cbn [render_one].
  - apply P_teardown, H.
  - apply (P_same st); [reflexivity..|exact H].
  - apply P_sortable, H.
  - apply (P_same st); [reflexivity..|exact H].
Qed.

Lemma wiring_run_render (steps : list render_step) (st : State) :
  P st → P (run_render steps st).
Proof.
  revert st. induction steps as [|s steps IH]; intros st H; [exact H|].
  apply IH, wiring_render_one, H.
Qed.

Lemma wiring_with_calls (x : list call) (st : State) :
  P st → P (with_calls x st).
Proof. apply P_same; reflexivity. Qed.

Lemma wiring_with_data (x : gmap Owner value) (st : State) :
  P st → P (with_data x st).
Proof. apply P_same; reflexivity. Qed.

Lemma wiring_with_sourceKeypath (x : option string) (st : State) :
  P st → P (with_sourceKeypath x st).
Proof. apply P_same; reflexivity. Qed.

Lemma wiring_spliced (r : Owner) (keypath : string) (index : option string)
    (removeCount : Z) (add items : list value) (st : State) :
  P st → P (spliced r keypath index removeCount add items st).
Proof.
  intros H. unfold spliced. apply wiring_run_render.
  apply wiring_with_data, wiring_with_calls, H.
Qed.

Lemma wiring_reordered (c : Ctx) (k : option string) (items : list value)
    (st : State) :
  P st → P (reordered c k items st).
Proof.
  intros H. unfold reordered. cbv zeta.
  match goal with
  | |- P (if ?b then _ else _) => destruct b
  end.
  1: apply wiring_with_calls.
  all: apply wiring_spliced, wiring_with_sourceKeypath, wiring_spliced.
  all: apply wiring_with_calls. all: unfold ignored.
  all: apply wiring_with_calls, H.
Qed.

Lemma wiring_dragenterHandler (this : Node) (st : State) :
  P st → P (dragenterHandler this st).2.
Proof.
  intros H.
  destruct (dragenter_outcomes st this)
    as [-> | [-> | [(me & ->) | [(c & items & _ & _ & ->) | (c & ->)]]]].
  - exact H.
  - apply (P_same st); [reflexivity..|exact H].
  - destruct (add_class_host_kept me (target_token st me) (ignored st))
      as [(Hm & Hl & Ht & _) _].
    apply (P_same st); [exact Hm|exact Hl|exact Ht|exact H].
  - apply wiring_reordered, H.
  - apply (P_same st); [reflexivity..|exact H].
Qed.

Lemma wiring_run_handler (h : handler) (this : Node) (st : State) :
  P st → P (run_handler h this st).2.
Proof.
  intros H. destruct h; cbn [run_handler].
  - destruct (dragstartHandler_host_kept this st) as [(Hm & Hl & Ht & _) _].
    apply (P_same st); [exact Hm|exact Hl|exact Ht|exact H].
  - apply wiring_dragenterHandler, H.
  - destruct (removeTargetClass_host_kept this st) as [(Hm & Hl & Ht & _) _].
    apply (P_same st); [exact Hm|exact Hl|exact Ht|exact H].
  - destruct (preventDefault_host_kept this st) as [(Hm & Hl & Ht & _) _].
    apply (P_same st); [exact Hm|exact Hl|exact Ht|exact H].
Qed.

Lemma wiring_run_listeners (hs : list handler) (this : Node) (st : State) :
  P st → P (run_listeners hs this st).2.
Proof.
  revert st. induction hs as [|h rest IH]; intros st H; simpl; [exact H|].
  pose proof (wiring_run_handler h this st H) as Hh.
  destruct (run_handler h this st) as [res st1]. simpl in Hh.
  specialize (IH st1 Hh).
  destruct (run_listeners rest this st1) as [reported st2]. exact IH.
Qed.

Lemma wiring_dispatch (ty : event_type) (target : Node) (st : State) :
  P st → P (dispatch ty target st).2.
Proof. unfold dispatch. apply wiring_run_listeners. Qed.

Lemma wiring_step (o : op) (st : State) : P st → P (step o st).
Proof.
  intros H.
  destruct o as [node sel targetClass name|node|ty target|instances contexts|f];
    cbn [step].
  - apply P_sortable, H.
  - apply P_teardown, H.
  - apply wiring_dispatch, H.
  - apply (P_same st); [reflexivity..|exact H].
  - apply (P_same st); [reflexivity..|exact H].
Qed.

Lemma wiring_run (ops : list op) (st : State) : P st → P (run ops st).
Proof.
  revert st. induction ops as [|o ops IH]; intros st H; [exact H|].
  apply IH, wiring_step, H.
Qed.

End Wiring.

(** *** The registry *)

Lemma registry_grows_sortable (st0 st : State) (node : Node)
    (sel targetClass name : value) :
  (∃ more, nodeMapping st = (nodeMapping st0 ++ more)%list) →
  ∃ more, nodeMapping (sortable node sel targetClass name st).2
          = (nodeMapping st0 ++ more)%list.
Proof.
  intros (more & Hmore).
  rewrite sortable_run. destruct (handle st node sel) as [h|]; cbn [snd].
  - destruct (wired_unchanged h (registered node (Some h) targetClass name st))
      as (Hm & _).
    rewrite Hm. unfold registered. simpl. rewrite Hmore, <- app_assoc.
    eexists. reflexivity.
  - destruct (refuses st sel); cbn [snd]; [exists more; exact Hmore|].
    unfold registered. simpl. rewrite Hmore, <- app_assoc.
    eexists. reflexivity.
Qed.

Lemma registry_grows_teardown (st0 st : State) (h : Node) :
  (∃ more, nodeMapping st = (nodeMapping st0 ++ more)%list) →
  ∃ more, nodeMapping (teardown h st).2 = (nodeMapping st0 ++ more)%list.
Proof.
  intros H. rewrite teardown_run. cbn [snd].
  destruct (unwired_unchanged h st) as (Hm & _). rewrite Hm. exact H.
Qed.

Lemma registry_grows_same (st0 st st' : State) :
  nodeMapping st' = nodeMapping st →
  listeners st' = listeners st →
  targetClass_of st' = targetClass_of st →
  (∃ more, nodeMapping st = (nodeMapping st0 ++ more)%list) →
  ∃ more, nodeMapping st' = (nodeMapping st0 ++ more)%list.
Proof. intros Hm _ _ H. rewrite Hm. exact H. Qed.



(** ** Histories: what holds after any sequence of steps *)

Lemma run_cons (o : op) (ops : list op) (st : State) :
  run (o :: ops) st = run ops (step o st).
Proof. reflexivity. Qed.

Lemma run_registry (ops : list op) (st : State) :
  ∃ more, nodeMapping (run ops st) = (nodeMapping st ++ more)%list.
Proof.
  apply (wiring_run (λ s, ∃ more, nodeMapping s = (nodeMapping st ++ more)%list)).
  - apply registry_grows_same.
  - intros s node sel targetClass name. apply registry_grows_sortable.
  - intros s h. apply registry_grows_teardown.
  - exists []. symmetry. apply app_nil_r.
Qed.

(** The registry only grows, and a lookup takes the first match: whatever
    is attached, torn down, dispatched or rendered afterwards, the entries a
    state has stay at the front of the registry, and a handle the registry
    resolves keeps resolving to the same movable element.  Binding a handle
    again, for another element, does not change what the listeners find for
    it. *)
Theorem registry_first_binding_wins (ops : list op) (st : State) (h m : Node) :
  resolve st h = Some m →
  nodeMapping st `prefix_of` nodeMapping (run ops st) ∧
  resolve (run ops st) h = Some m.
Proof.
  intros Hres. destruct (run_registry ops st) as (more & Hmore).
  split; [exists more; exact Hmore|].
  unfold resolve in *. rewrite Hmore, find_app_first.
  destruct (List.find _ (nodeMapping st)); [exact Hres|discriminate Hres].
Qed.

Lemma registry_first_binding_wins_witness :
  let st := (sortable 11%nat VUndefined VUndefined VUndefined
               (loaded (<[(10%nat, ".grip") := 11%nat]> ∅) ∅ ∅)).2 in
  let ops := [Attach 10%nat (VStr ".grip") VUndefined VUndefined;
              Detach 11%nat; Native Dragstart 11%nat] in
  nodeMapping st `prefix_of` nodeMapping (run ops st) ∧
  resolve (run ops st) 11%nat = Some 11%nat.
Proof.
  exact (registry_first_binding_wins
           [Attach 10%nat (VStr ".grip") VUndefined VUndefined;
            Detach 11%nat; Native Dragstart 11%nat]
           (sortable 11%nat VUndefined VUndefined VUndefined
              (loaded (<[(10%nat, ".grip") := 11%nat]> ∅) ∅ ∅)).2
           11%nat 11%nat eq_refl).
Defined.

(** *** The listeners *)

Lemma listeners_ok_same (st st' : State) :
  listeners st' = listeners st → listeners_ok st → listeners_ok st'.
Proof.
  intros Heq Hok n. unfold listeners_on. rewrite Heq. apply Hok.
Qed.

Lemma add_listener_ok (n : Node) (ty : event_type) (hd : handler) (st : State) :
  (ty, hd) ∈ plugin_listeners →
  listeners_ok st → listeners_ok (add_listener n ty hd st).
Proof.
  intros Hin Hok. unfold add_listener. case_bool_decide as Hthere; [exact Hok|].
  intros n'. unfold listeners_on at 1 3. simpl.
  destruct (decide (n = n')) as [<-|Hne].
  - rewrite lookup_insert_eq. simpl. destruct (Hok n) as [Hsub Hnodup]. split.
    + intros l Hl. apply elem_of_app in Hl as [Hl|Hl]; [apply Hsub, Hl|].
      apply list_elem_of_singleton in Hl. subst l. exact Hin.
    + apply NoDup_app. split; [exact Hnodup|]. split.
      * intros l Hl Hl'. apply list_elem_of_singleton in Hl'. subst l.
        contradiction.
      * apply NoDup_singleton.
  - rewrite lookup_insert_ne by exact Hne. apply Hok.
Qed.

Lemma remove_listener_ok (n : Node) (ty : event_type) (hd : handler) (st : State) :
  listeners_ok st → listeners_ok (remove_listener n ty hd st).
Proof.
  intros Hok. unfold remove_listener. case_bool_decide as Hthere; [|exact Hok].
  intros n'. unfold listeners_on at 1 3. simpl.
  destruct (decide (n = n')) as [<-|Hne].
  - rewrite lookup_insert_eq. simpl. destruct (Hok n) as [Hsub Hnodup]. split.
    + intros l Hl. apply list_elem_of_filter in Hl as [_ Hl]. apply Hsub, Hl.
    + apply NoDup_filter. exact Hnodup.
  - rewrite lookup_insert_ne by exact Hne. apply Hok.
Qed.

Lemma wired_ok (h : Node) (st : State) : listeners_ok st → listeners_ok (wired h st).
Proof.
  intros Hok. unfold wired.
  repeat (apply add_listener_ok;
          [unfold plugin_listeners; rewrite !elem_of_cons; tauto|]).
  apply (listeners_ok_same st); [reflexivity|exact Hok].
Qed.

Lemma unwired_ok (h : Node) (st : State) :
  listeners_ok st → listeners_ok (unwired h st).
Proof.
  intros Hok. unfold unwired. repeat apply remove_listener_ok. exact Hok.
Qed.

Lemma sortable_listeners_ok (st : State) (node : Node)
    (sel targetClass name : value) :
  listeners_ok st → listeners_ok (sortable node sel targetClass name st).2.
Proof.
  intros Hok.
  rewrite sortable_run. destruct (handle st node sel) as [h|]; cbn [snd].
  - apply wired_ok. apply (listeners_ok_same st); [reflexivity|exact Hok].
  - destruct (refuses st sel); cbn [snd]; [exact Hok|].
    apply (listeners_ok_same st); [reflexivity|exact Hok].
Qed.

Lemma step_listeners_ok (o : op) (st : State) :
  listeners_ok st → listeners_ok (step o st).
Proof.
  apply (wiring_step listeners_ok).
  - intros s s' _ Hl _. apply listeners_ok_same. exact Hl.
  - intros s node sel targetClass name. apply sortable_listeners_ok.
  - intros s h Hok. rewrite teardown_run. apply unwired_ok. exact Hok.
Qed.

(** However decorators are attached and torn down, whatever events arrive
    and whatever the host renders, every node carries only the plugin's five
    listeners and each of them at most once: attaching to a node again
    registers no listener twice, and no event runs a handler of the plugin
    more than once per node. *)
Theorem listeners_never_doubled (ops : list op)
    (query : gmap (Node * string) Node) (instances : gmap Owner value)
    (contexts : gmap Node Ctx) :
  listeners_ok (run ops (loaded query instances contexts)).
Proof.
  assert (H : ∀ st, listeners_ok st → listeners_ok (run ops st)).
  { induction ops as [|o ops IH]; intros st Hok; [exact Hok|].
    rewrite run_cons. apply IH, step_listeners_ok, Hok. }
  apply H. intros n. unfold listeners_on. simpl. rewrite lookup_empty. simpl.
  split; [intros l Hl; apply elem_of_nil in Hl; contradiction|apply NoDup_nil_2].
Qed.

(** *** The session *)

Lemma dragstart_outcomes (st : State) (this : Node) :
  (dragstartHandler this st).2 = st ∨
  ∃ c, (dragstartHandler this st).2 = refused c st ∨
       (dragstartHandler this st).2 = started c st.
Proof.
  destruct (resolve st this) as [me|] eqn:Hres.
  2: { left. destruct (handlers_on_unknown_handle st this Hres) as (-> & _).
       reflexivity. }
  destruct (getContext st !! me) as [c|] eqn:Hctx.
  2: { left. destruct (handlers_without_context st this me Hres Hctx) as (-> & _).
       reflexivity. }
  right. exists c.
  destruct (Array_isArray (value_at st (c_ractive c) (c_resolve_up c))) eqn:Harr.
  - right. rewrite (dragstart_ok st this me c) by assumption. reflexivity.
  - left. rewrite (dragstart_invalid st this me c) by assumption. reflexivity.
Qed.

Lemma removeTargetClass_session (st : State) (this : Node) :
  session (removeTargetClass this st).2 = session st.
Proof.
  destruct (resolve st this) as [node|] eqn:Hres.
  - rewrite (removeTargetClass_run st this node Hres).
    destruct (token_error (target_token st node)); cbn [snd]; [reflexivity|].
    destruct (remove_class_frame node (target_token st node) st) as (_ & Hs & _).
    rewrite <- Hs. reflexivity.
  - destruct (handlers_on_unknown_handle st this Hres) as (_ & _ & ->). reflexivity.
Qed.

Lemma run_handler_session_ordered (h : handler) (this : Node) (st : State) :
  session_ordered st → session_ordered (run_handler h this st).2.
Proof.
  intros [H1 H2]. destruct h; cbn [run_handler].
  - destruct (dragstart_outcomes st this) as [-> | (c & [-> | ->])].
    + split; assumption.
    + split; simpl; eauto.
    + split; simpl; eauto.
  - destruct (dragenterHandler_kept this st) as (_ & (Ho & Ha & Hk)).
    unfold session_ordered. rewrite Ho, Ha. split; [exact H1|].
    intros Harr. destruct Hk as [-> | Hk]; [apply H2, Harr|exact Hk].
  - pose proof (removeTargetClass_session st this) as Hs.
    unfold session in Hs. injection Hs as Hs1 Hs2 Hs3.
    unfold session_ordered. rewrite Hs1, Hs2, Hs3. split; assumption.
  - split; assumption.
Qed.

Lemma run_listeners_session_ordered (hs : list handler) (this : Node) (st : State) :
  session_ordered st → session_ordered (run_listeners hs this st).2.
Proof.
  revert st. induction hs as [|h rest IH]; intros st Hok; simpl; [exact Hok|].
  pose proof (run_handler_session_ordered h this st Hok) as Hh.
  destruct (run_handler h this st) as [res st1]. simpl in Hh.
  specialize (IH st1 Hh).
  destruct (run_listeners rest this st1) as [reported st2]. exact IH.
Qed.

Lemma session_ordered_same (st st' : State) :
  session st' = session st → session_ordered st → session_ordered st'.
Proof.
  unfold session. intros Hs. injection Hs as Hs1 Hs2 Hs3.
  unfold session_ordered. rewrite Hs1, Hs2, Hs3. intros H. exact H.
Qed.

Lemma step_session_ordered (o : op) (st : State) :
  session_ordered st → session_ordered (step o st).
Proof.
  intros Hok.
  destruct o as [node sel targetClass name|node|ty target|instances contexts|f];
    cbn [step].
  - apply (session_ordered_same st); [|exact Hok].
    apply (sortable_render_kept st node sel targetClass name).
  - apply (session_ordered_same st); [|exact Hok].
    rewrite teardown_run. apply (unwired_unchanged node st).
  - apply run_listeners_session_ordered. exact Hok.
  - apply (session_ordered_same st); [reflexivity|exact Hok].
  - apply (session_ordered_same st); [reflexivity|exact Hok].
Qed.

(** The session is always filled in order.  In every state a page can
    reach, an owner is stored only when a source collection is, and a source
    collection only when a source keypath is: a drag-enter that passes the
    owner and collection guards never reads an [undefined] source
    keypath. *)
Theorem session_filled_in_order (ops : list op)
    (query : gmap (Node * string) Node) (instances : gmap Owner value)
    (contexts : gmap Node Ctx) :
  let st := run ops (loaded query instances contexts) in
  session_ordered st ∧
  (is_Some (ractive st) → is_Some (sourceKeypath st)).
Proof.
  assert (H : ∀ st, session_ordered st → session_ordered (run ops st)).
  { induction ops as [|o ops IH]; intros st Hok; [exact Hok|].
    rewrite run_cons. apply IH, step_session_ordered, Hok. }
  assert (H0 : session_ordered (loaded query instances contexts)).
  { split; simpl; intros [x Hx]; discriminate Hx. }
  specialize (H _ H0). split; [exact H|].
  destruct H as [H1 H2]. intros Hr. apply H2, H1, Hr.
Qed.

(** *** The class names *)

Lemma classes_recorded_same (st st' : State) :
  nodeMapping st' = nodeMapping st →
  targetClass_of st' = targetClass_of st →
  classes_recorded st → classes_recorded st'.
Proof. intros Hm Ht H0 item. rewrite Hm, Ht. apply H0. Qed.

Lemma registered_classes_recorded (st : State) (node : Node) (d : option Node)
    (targetClass name : value) :
  classes_recorded st → classes_recorded (registered node d targetClass name st).
Proof.
  intros Hok item Hin. unfold registered in *. simpl in *.
  apply elem_of_app in Hin as [Hin|Hin].
  - destruct (decide (node = nodeToMove item)) as [<-|Hne].
    + rewrite lookup_insert_eq. eexists. reflexivity.
    + rewrite lookup_insert_ne by exact Hne. apply Hok, Hin.
  - apply list_elem_of_singleton in Hin. subst item. simpl.
    rewrite lookup_insert_eq. eexists. reflexivity.
Qed.

Lemma sortable_classes_recorded (st : State) (node : Node)
    (sel targetClass name : value) :
  classes_recorded st →
  classes_recorded (sortable node sel targetClass name st).2.
Proof.
  intros Hok.
  rewrite sortable_run. destruct (handle st node sel) as [h|]; cbn [snd].
  - destruct (wired_unchanged h (registered node (Some h) targetClass name st))
      as (Hm & _ & _ & Ht & _).
    eapply classes_recorded_same; [exact Hm|exact Ht|].
    apply registered_classes_recorded, Hok.
  - destruct (refuses st sel); cbn [snd]; [exact Hok|].
    apply registered_classes_recorded, Hok.
Qed.

Lemma step_classes_recorded (o : op) (st : State) :
  classes_recorded st → classes_recorded (step o st).
Proof.
  apply (wiring_step classes_recorded).
  - intros s s' Hm _ Ht. apply classes_recorded_same; assumption.
  - intros s node sel targetClass name. apply sortable_classes_recorded.
  - intros s h Hok. rewrite teardown_run. cbn [snd].
    destruct (unwired_unchanged h s) as (Hm & _ & _ & Ht & _).
    eapply classes_recorded_same; [exact Hm|exact Ht|exact Hok].
Qed.

(** Whenever the registry resolves a handle, the movable element it answers
    has a class name recorded: on a page that started with the plugin
    loaded, the listeners never hand [classList] the [undefined] of a
    missing [dataset.targetClass]. *)
Theorem resolved_element_has_class (ops : list op)
    (query : gmap (Node * string) Node) (instances : gmap Owner value)
    (contexts : gmap Node Ctx) (h m : Node) :
  resolve (run ops (loaded query instances contexts)) h = Some m →
  ∃ token,
    targetClass_of (run ops (loaded query instances contexts)) !! m = Some token ∧
    target_token (run ops (loaded query instances contexts)) m = token.
Proof.
  assert (H : ∀ st, classes_recorded st → classes_recorded (run ops st)).
  { induction ops as [|o ops IH]; intros st Hok; [exact Hok|].
    rewrite run_cons. apply IH, step_classes_recorded, Hok. }
  assert (H0 : classes_recorded (loaded query instances contexts)).
  { intros item Hin. simpl in Hin. apply elem_of_nil in Hin. contradiction. }
  specialize (H _ H0). intros Hres. unfold resolve in Hres.
  destruct (List.find _ _) as [item|] eqn:Hfind; [|discriminate Hres].
  simpl in Hres. injection Hres as <-.
  apply find_some in Hfind as [Hin _]. apply list_elem_of_In in Hin.
  destruct (H item Hin) as [token Htoken].
  exists token. split; [exact Htoken|]. unfold target_token. rewrite Htoken.
  reflexivity.
Qed.

Lemma resolved_element_has_class_witness :
  ∃ token,
    targetClass_of
      (run [Attach 10%nat VUndefined (VStr "over") VUndefined; Detach 10%nat]
         (loaded ∅ ∅ ∅)) !! 10%nat = Some token ∧
    target_token
      (run [Attach 10%nat VUndefined (VStr "over") VUndefined; Detach 10%nat]
         (loaded ∅ ∅ ∅)) 10%nat = token.
Proof.
  exact (resolved_element_has_class
           [Attach 10%nat VUndefined (VStr "over") VUndefined; Detach 10%nat]
           ∅ ∅ ∅ 10%nat 10%nat eq_refl).
Defined.

Lemma session_filled_in_order_witness :
  is_Some
    (sourceKeypath
       (run [Attach 10%nat VUndefined VUndefined VUndefined;
             Native Dragstart 10%nat]
          (page (VStr "a") (VStr "b") (VStr "c") (VStr "d")))).
Proof.
  refine (proj2 (session_filled_in_order
                   [Attach 10%nat VUndefined VUndefined VUndefined;
                    Native Dragstart 10%nat]
                   ∅ (data (page (VStr "a") (VStr "b") (VStr "c") (VStr "d")))
                   (getContext (page (VStr "a") (VStr "b") (VStr "c") (VStr "d"))))
                _).
  vm_compute. eexists. reflexivity.
Defined.


(** ** The highlight *)

Lemma filter_out_absent (token : string) (l : list string) :
  token ∉ l → filter (λ t, t ≠ token) l = l.
Proof.
  induction l as [|x l IH]; intros Hnot; [reflexivity|].
  apply not_elem_of_cons in Hnot as [Hne Hnot].
  rewrite filter_cons_True by congruence. rewrite IH by exact Hnot. reflexivity.
Qed.

Lemma remove_class_other (n n' : Node) (token : string) (st : State) :
  n ≠ n' → classes (remove_class n token st) n' = classes st n'.
Proof.
  intros Hne. unfold remove_class. case_bool_decide; [|reflexivity].
  unfold classes at 1. simpl. rewrite lookup_insert_ne by exact Hne. reflexivity.
Qed.

Lemma add_then_remove_class (n : Node) (token : string) (st : State) :
  token ∉ classes st n →
  classes (add_class n token st) n = (classes st n ++ [token])%list ∧
  classes (remove_class n token (add_class n token st)) n = classes st n.
Proof.
  intros Hnot.
  assert (Hadd : classes (add_class n token st) n = (classes st n ++ [token])%list).
  { unfold add_class. rewrite bool_decide_eq_false_2 by exact Hnot.
    unfold classes at 1. simpl. rewrite lookup_insert_eq. reflexivity. }
  split; [exact Hadd|].
  unfold remove_class.
  rewrite bool_decide_eq_true_2
    by (rewrite Hadd; apply elem_of_app; right; apply list_elem_of_singleton;
        reflexivity).
  unfold classes at 1. simpl. rewrite lookup_insert_eq. simpl.
  rewrite Hadd, filter_app, filter_out_absent by exact Hnot.
  rewrite filter_cons_False by (intros H; apply H; reflexivity).
  apply app_nil_r.
Qed.

Lemma same_position_then (st : State) (this me : Node) (c : Ctx) :
  resolve st this = Some me →
  getContext st !! me = Some c →
  ractive st = Some (c_ractive c) →
  sourceArray st = Some (c_resolve_up c) →
  sourceKeypath st = Some (c_resolve c) →
  token_error (target_token st me) = None →
  let st1 := (dragenterHandler this st).2 in
  st1 = add_class me (target_token st me) (ignored st) ∧
  (∀ h, resolve st1 h = resolve st h) ∧
  (∀ n, target_token st1 n = target_token st n) ∧
  data st1 = data st ∧
  session st1 = session st.
Proof.
  intros Hres Hctx Hr Ha Hk Htok st1.
  assert (H1 : st1 = add_class me (target_token st me) (ignored st)).
  { unfold st1. rewrite (dragenter_same_position st this me c) by assumption.
    rewrite Htok. reflexivity. }
  destruct (add_class_host_kept me (target_token st me) (ignored st))
    as [(Hm & _ & Ht & _) Hd].
  destruct (add_class_frame me (target_token st me) (ignored st)) as (_ & Hs & _).
  rewrite H1. repeat split.
  - intros h. unfold resolve. rewrite Hm. reflexivity.
  - intros n. unfold target_token at 1 3. rewrite Ht. reflexivity.
  - exact Hd.
  - exact Hs.
Qed.

(** The highlight is put on and taken off again.  When a drag-enter on the
    own position highlights an element that did not carry its class, the
    drag-end or drop handled for the same handle leaves the class list of
    that element as it was before the drag-enter; the data and the session
    are what they were.  The recorded class is one the DOM takes as a class
    token. *)
Theorem highlight_round_trip (st : State) (this me : Node) (c : Ctx) :
  resolve st this = Some me →
  getContext st !! me = Some c →
  ractive st = Some (c_ractive c) →
  sourceArray st = Some (c_resolve_up c) →
  sourceKeypath st = Some (c_resolve c) →
  token_error (target_token st me) = None →
  target_token st me ∉ classes st me →
  let st1 := (dragenterHandler this st).2 in
  let st2 := (removeTargetClass this st1).2 in
  classes st1 me = (classes st me ++ [target_token st me])%list ∧
  classes st2 me = classes st me ∧
  data st2 = data st ∧
  session st2 = session st.
Proof.
  intros Hres Hctx Hr Ha Hk Htok Hnot st1 st2.
  destruct (same_position_then st this me c Hres Hctx Hr Ha Hk Htok)
    as (H1 & Hres1 & Htok1 & Hd1 & Hs1).
  fold st1 in H1, Hres1, Htok1, Hd1, Hs1.
  assert (H2 : st2 = with_calls
                 (calls (remove_class me (target_token st me) st1)
                    ++ [StopPropagation])%list
                 (remove_class me (target_token st me) st1)).
  { unfold st2. rewrite (removeTargetClass_run st1 this me)
      by (rewrite Hres1; exact Hres).
    rewrite Htok1, Htok. reflexivity. }
  destruct (add_then_remove_class me (target_token st me) (ignored st) Hnot)
    as (Ha1 & Ha2).
  destruct (remove_class_frame me (target_token st me) st1) as (Hd & Hs & _).
  split; [rewrite H1; exact Ha1|].
  split; [rewrite H2, H1; exact Ha2|].
  split.
  - rewrite H2. simpl. rewrite Hd. exact Hd1.
  - rewrite H2. unfold session in *. simpl. rewrite <- Hs1. exact Hs.
Qed.

Lemma highlight_round_trip_witness :
  let st := (dragstartHandler 10%nat
               (page_ready (VStr "a") (VStr "b") (VStr "c") (VStr "d"))).2 in
  let st1 := (dragenterHandler 10%nat st).2 in
  let st2 := (removeTargetClass 10%nat st1).2 in
  classes st1 10%nat = ["droptarget"] ∧
  classes st2 10%nat = [] ∧
  data st2 = data st ∧
  session st2 = session st.
Proof.
  exact (highlight_round_trip
           (dragstartHandler 10%nat
              (page_ready (VStr "a") (VStr "b") (VStr "c") (VStr "d"))).2
           10%nat 10%nat (item_context 0%nat "list" 0%nat)
           eq_refl eq_refl eq_refl eq_refl eq_refl eq_refl
           ltac:(vm_compute; apply not_elem_of_nil)).
Defined.

(** A drag-end or drop clears the highlight of the element of its own
    handle only.  When the event arrives for another handle than the one
    whose element was highlighted, the highlighted element keeps its class:
    nothing else in the plugin removes it.  The classes recorded for the
    two elements are ones the DOM takes as class tokens. *)
Theorem highlight_survives_other_dragend (st : State) (this other me me' : Node)
    (c : Ctx) :
  resolve st this = Some me →
  getContext st !! me = Some c →
  ractive st = Some (c_ractive c) →
  sourceArray st = Some (c_resolve_up c) →
  sourceKeypath st = Some (c_resolve c) →
  resolve st other = Some me' →
  me' ≠ me →
  token_error (target_token st me) = None →
  token_error (target_token st me') = None →
  let st1 := (dragenterHandler this st).2 in
  let st2 := (removeTargetClass other st1).2 in
  removeTargetClass other st1 = (Ok tt, st2) ∧
  target_token st me ∈ classes st2 me ∧
  classes st2 me = classes st1 me.
Proof.
  intros Hres Hctx Hr Ha Hk Hother Hne Htok Htok' st1 st2.
  destruct (same_position_then st this me c Hres Hctx Hr Ha Hk Htok)
    as (H1 & Hres1 & Htok1 & _).
  fold st1 in H1, Hres1, Htok1.
  assert (Hrun : removeTargetClass other st1 =
                 (Ok tt,
                  with_calls
                    (calls (remove_class me' (target_token st1 me') st1)
                       ++ [StopPropagation])%list
                    (remove_class me' (target_token st1 me') st1))).
  { rewrite (removeTargetClass_run st1 other me') by (rewrite Hres1; exact Hother).
    rewrite Htok1, Htok'. reflexivity. }
  assert (H2 : classes st2 me = classes st1 me).
  { unfold st2. rewrite Hrun. cbn [snd].
    change (classes (with_calls ?x ?s) me) with (classes s me).
    apply remove_class_other. exact Hne. }
  split; [unfold st2; rewrite Hrun; reflexivity|].
  split; [|exact H2].
  rewrite H2, H1. apply add_class_elem.
Qed.

Lemma highlight_survives_other_dragend_witness :
  let st := (dragstartHandler 10%nat
               (page_ready (VStr "a") (VStr "b") (VStr "c") (VStr "d"))).2 in
  let st1 := (dragenterHandler 10%nat st).2 in
  let st2 := (removeTargetClass 11%nat st1).2 in
  removeTargetClass 11%nat st1 = (Ok tt, st2) ∧
  "droptarget" ∈ classes st2 10%nat ∧
  classes st2 10%nat = classes st1 10%nat.
Proof.
  exact (highlight_survives_other_dragend
           (dragstartHandler 10%nat
              (page_ready (VStr "a") (VStr "b") (VStr "c") (VStr "d"))).2
           10%nat 11%nat 10%nat 11%nat (item_context 0%nat "list" 0%nat)
           eq_refl eq_refl eq_refl eq_refl eq_refl eq_refl
           ltac:(vm_compute; discriminate) eq_refl eq_refl).
Defined.

(** ** A refused drag-start *)

(** The drag-start handler stores the two keypaths before it checks for an
    array and the owner after it.  So a refused drag-start leaves a session
    made of the refused element's keypaths and the owner of an earlier
    gesture, and a drag-enter in that owner's view, on an element of a
    collection with the same keypath, passes the guards: it moves a member
    of that owner's array, taking the index from the refused element's
    keypath.  Both keypaths end in an index, as those of elements rendered
    from the members of a list do. *)
Theorem refused_dragstart_poisons_session (st : State) (h1 h2 m1 m2 : Node)
    (c1 c2 : Ctx) (r : Owner) (items : list value) (seg target_seg : string)
    (i j : nat) :
  resolve st h1 = Some m1 →
  getContext st !! m1 = Some c1 →
  Array_isArray (value_at st (c_ractive c1) (c_resolve_up c1)) = false →
  ractive st = Some r →
  resolve st h2 = Some m2 →
  getContext st !! m2 = Some c2 →
  c_ractive c2 = r →
  c_resolve_up c2 = c_resolve_up c1 →
  c_resolve c2 ≠ c_resolve c1 →
  value_at st r (c_resolve_up c2) = VArr items →
  splitKeypath (c_resolve c1) = (splitKeypath (c_resolve_up c1) ++ [seg])%list →
  array_index seg = Some i →
  splitKeypath (c_resolve c2) = (splitKeypath (c_resolve_up c2) ++ [target_seg])%list →
  array_index target_seg = Some j →
  let st1 := (dragstartHandler h1 st).2 in
  dragstartHandler h1 st = (Throw (Error errorMessage), st1) ∧
  session st1 = (Some r, Some (c_resolve c1), Some (c_resolve_up c1)) ∧
  ∃ st2,
    dragenterHandler h2 st1 = (Ok tt, st2) ∧
    value_at st2 r (c_resolve_up c2) =
      VArr (js_splice (js_splice items (Z.of_nat i) 1 []) (Z.of_nat j) 0
              [default VUndefined (items !! i)]) ∧
    session st2 = (Some r, Some (c_resolve c2), Some (c_resolve_up c1)).
Proof.
  intros Hres1 Hctx1 Hnot Hr Hres2 Hctx2 Hown Harr Hkey Hitems
    Hsplit Hseg Htsplit Htseg st1.
  assert (Hstart : dragstartHandler h1 st = (Throw (Error errorMessage), refused c1 st))
    by (apply (dragstart_invalid st h1 m1 c1); assumption).
  assert (H1 : st1 = refused c1 st) by (unfold st1; rewrite Hstart; reflexivity).
  split; [rewrite H1; exact Hstart|].
  split; [rewrite H1; unfold session; simpl; rewrite Hr; reflexivity|].
  subst r.
  destruct (dragenter_reorder (refused c1 st) h2 m2 c2 (c_resolve c1) items)
    as (st2 & Hrun & Hval & Hk2 & Hr2 & Ha2 & _);
    try assumption.
  - simpl. rewrite Harr. reflexivity.
  - reflexivity.
  - congruence.
  - exists st2. rewrite H1. split; [exact Hrun|]. split.
    + rewrite Hval. unfold moved.
      change (value_at (refused c1 st) ?r ?k) with (value_at st r k).
      rewrite (value_at_member st (c_ractive c2) (c_resolve_up c2) (c_resolve c1)
                 seg items i Hitems) by (rewrite ?Harr; assumption).
      rewrite Hsplit, Htsplit, !last_segment_snoc.
      rewrite (host_splice_index _ seg i), (host_splice_index _ target_seg j)
        by assumption.
      reflexivity.
    + unfold session. rewrite Hk2, Hr2, Ha2. simpl. rewrite Hr. reflexivity.
Qed.

Lemma refused_dragstart_poisons_session_witness :
  let ready := page_ready (VStr "a") (VStr "b") (VStr "c") (VStr "d") in
  let st := (dragstartHandler 10%nat
               (sortable 50%nat VUndefined VUndefined VUndefined
                  (step
                     (Render
                        (<[1%nat := VObj [("list", VArr [VStr "p"; VStr "q"]);
                                          ("other", VObj [("0", VStr "z")])]]>
                           (data ready))
                        (<[50%nat := item_context 1%nat "other" 0%nat]>
                           (getContext ready)))
                     ready)).2).2 in
  let c1 := item_context 1%nat "other" 0%nat in
  let c2 := item_context 0%nat "other" 1%nat in
  let st1 := (dragstartHandler 50%nat st).2 in
  dragstartHandler 50%nat st = (Throw (Error errorMessage), st1) ∧
  session st1 = (Some 0%nat, Some "other.0", Some "other") ∧
  ∃ st2,
    dragenterHandler 21%nat st1 = (Ok tt, st2) ∧
    value_at st2 0%nat "other" = VArr [VStr "y"; VStr "x"] ∧
    session st2 = (Some 0%nat, Some "other.1", Some "other").
Proof.
  intros ready st c1 c2.
  refine (refused_dragstart_poisons_session st 50%nat 21%nat 50%nat 21%nat
            c1 c2 0%nat [VStr "x"; VStr "y"] "0" "1" 0%nat 1%nat
            _ _ _ _ _ _ _ _ _ _ _ _ _ _).
  all: vm_compute; first [reflexivity | discriminate].
Defined.

(** ** A collection that is no array any more *)

(** When the value at the collection's keypath has stopped being an array
    by the time a reordering drag-enter arrives, the host refuses the
    removal: the handler throws the host's error, the insertion is never
    asked for, and the data and the session stay as they were. *)
Theorem reorder_refused_by_host (st : State) (this me : Node) (c : Ctx) :
  resolve st this = Some me →
  getContext st !! me = Some c →
  ractive st = Some (c_ractive c) →
  sourceArray st = Some (c_resolve_up c) →
  Some (c_resolve c) ≠ sourceKeypath st →
  Array_isArray (value_at st (c_ractive c) (c_resolve_up c)) = false →
  value_at st (c_ractive c) (c_resolve_up c) ≠ VUndefined →
  ∃ st',
    dragenterHandler this st = (Throw HostError, st') ∧
    data st' = data st ∧
    session st' = session st ∧
    calls st' =
      (calls st ++
       [PreventDefault; DropEffect "move";
        Splice (c_ractive c) (c_resolve_up c)
          (last_segment (splitKeypath (keypath_arg (sourceKeypath st)))) 1 []])%list.
Proof.
  intros Hres Hctx Hr Ha Hne Harr _.
  exists (reorder_refused c (sourceKeypath st) st).
  split; [apply (dragenter_reorder_refused st this me c); assumption|].
  repeat split. unfold reorder_refused, ignored. simpl.
  rewrite <- !app_assoc. reflexivity.
Qed.

Lemma reorder_refused_by_host_witness :
  let st := step (Render (<[0%nat := VObj [("list", VStr "gone")]]> ∅)
                    (getContext (page_ready (VStr "a") (VStr "b") (VStr "c") (VStr "d"))))
              (dragstartHandler 10%nat
                 (page_ready (VStr "a") (VStr "b") (VStr "c") (VStr "d"))).2 in
  let c := item_context 0%nat "list" 2%nat in
  ∃ st',
    dragenterHandler 12%nat st = (Throw HostError, st') ∧
    data st' = data st ∧
    session st' = session st ∧
    calls st' =
      (calls st ++
       [PreventDefault; DropEffect "move";
        Splice (c_ractive c) (c_resolve_up c)
          (last_segment (splitKeypath (keypath_arg (sourceKeypath st)))) 1 []])%list.
Proof.
  intros st c.
  refine (reorder_refused_by_host st 12%nat 12%nat c _ _ _ _ _ _ _).
  all: vm_compute; first [reflexivity | discriminate].
Defined.

(** ** Teardown, twice *)

Lemma remove_listener_absent (n : Node) (ty : event_type) (hd : handler)
    (st : State) :
  (ty, hd) ∉ listeners_on st n → remove_listener n ty hd st = st.
Proof.
  intros Hnot. unfold remove_listener.
  rewrite bool_decide_eq_false_2 by exact Hnot. reflexivity.
Qed.

Lemma unwired_absent (h : Node) (st : State) :
  (∀ l, l ∈ plugin_listeners → l ∉ listeners_on st h) → unwired h st = st.
Proof.
  intros Hnone. unfold unwired.
  rewrite (remove_listener_absent h Dragstart H_dragstartHandler st)
    by (apply Hnone; unfold plugin_listeners; rewrite !elem_of_cons; tauto).
  rewrite (remove_listener_absent h Dragend H_removeTargetClass st)
    by (apply Hnone; unfold plugin_listeners; rewrite !elem_of_cons; tauto).
  rewrite (remove_listener_absent h Dragenter H_dragenterHandler st)
    by (apply Hnone; unfold plugin_listeners; rewrite !elem_of_cons; tauto).
  rewrite (remove_listener_absent h Dragover H_preventDefault st)
    by (apply Hnone; unfold plugin_listeners; rewrite !elem_of_cons; tauto).
  rewrite (remove_listener_absent h Drop H_removeTargetClass st)
    by (apply Hnone; unfold plugin_listeners; rewrite !elem_of_cons; tauto).
  reflexivity.
Qed.

Lemma remove_listener_draggable (n : Node) (ty : event_type) (hd : handler)
    (st : State) :
  draggable (remove_listener n ty hd st) = draggable st.
Proof. unfold remove_listener. case_bool_decide; reflexivity. Qed.

Lemma add_listener_draggable (n : Node) (ty : event_type) (hd : handler)
    (st : State) :
  draggable (add_listener n ty hd st) = draggable st.
Proof. unfold add_listener. case_bool_decide; reflexivity. Qed.

(** Calling [teardown] again changes nothing: the second call returns
    without an error and leaves the state of the first.  What [teardown]
    does not undo is the [draggable] flag [sortable] set on the handle, and
    the registry, the recorded class names and the event name stay as
    well. *)
Theorem teardown_twice (st : State) (h : Node) :
  teardown h (teardown h st).2 = (Ok tt, (teardown h st).2) ∧
  draggable (teardown h st).2 = draggable st ∧
  unchanged st (teardown h st).2.
Proof.
  rewrite !teardown_run. cbn [snd]. split; [|split].
  - f_equal. apply unwired_absent. intros l Hl Hin.
    apply unwired_elem in Hin as [_ Hnot]. contradiction.
  - unfold unwired. rewrite !remove_listener_draggable. reflexivity.
  - apply unwired_unchanged.
Qed.

(** ** The class name recorded *)



(** ** From the events to the handlers *)

Lemma add_listener_fresh (n : Node) (ty : event_type) (hd : handler) (st : State) :
  (ty, hd) ∉ listeners_on st n →
  listeners_on (add_listener n ty hd st) n = (listeners_on st n ++ [(ty, hd)])%list.
Proof.
  intros Hnot. unfold add_listener. rewrite bool_decide_eq_false_2 by exact Hnot.
  unfold listeners_on at 1. simpl. rewrite lookup_insert_eq. reflexivity.
Qed.

Lemma wired_fresh (h : Node) (st : State) :
  listeners_on st h = [] → listeners_on (wired h st) h = plugin_listeners.
Proof.
  intros Hnone. unfold wired.
  set (s0 := with_draggable (<[h := true]> (draggable st)) st).
  assert (L0 : listeners_on s0 h = []) by exact Hnone.
  set (s1 := add_listener h Dragstart H_dragstartHandler s0).
  assert (L1 : listeners_on s1 h = [(Dragstart, H_dragstartHandler)]).
  { unfold s1. rewrite add_listener_fresh; rewrite L0; [reflexivity|].
    apply not_elem_of_nil. }
  set (s2 := add_listener h Dragend H_removeTargetClass s1).
  assert (L2 : listeners_on s2 h =
               [(Dragstart, H_dragstartHandler); (Dragend, H_removeTargetClass)]).
  { unfold s2. rewrite add_listener_fresh; rewrite L1; [reflexivity|].
    rewrite !not_elem_of_cons. repeat split; try discriminate.
    apply not_elem_of_nil. }
  set (s3 := add_listener h Dragenter H_dragenterHandler s2).
  assert (L3 : listeners_on s3 h =
               [(Dragstart, H_dragstartHandler); (Dragend, H_removeTargetClass);
                (Dragenter, H_dragenterHandler)]).
  { unfold s3. rewrite add_listener_fresh; rewrite L2; [reflexivity|].
    rewrite !not_elem_of_cons. repeat split; try discriminate.
    apply not_elem_of_nil. }
  set (s4 := add_listener h Dragover H_preventDefault s3).
  assert (L4 : listeners_on s4 h =
               [(Dragstart, H_dragstartHandler); (Dragend, H_removeTargetClass);
                (Dragenter, H_dragenterHandler); (Dragover, H_preventDefault)]).
  { unfold s4. rewrite add_listener_fresh; rewrite L3; [reflexivity|].
    rewrite !not_elem_of_cons. repeat split; try discriminate.
    apply not_elem_of_nil. }
  rewrite add_listener_fresh; rewrite L4; [reflexivity|].
  rewrite !not_elem_of_cons. repeat split; try discriminate.
  apply not_elem_of_nil.
Qed.

Lemma dispatch_single (ty : event_type) (hd : handler) (h : Node) (st : State) :
  snd <$> filter (λ l, l.1 = ty) (listeners_on st h) = [hd] →
  dispatch ty h st = (reported (run_handler hd h st).1, (run_handler hd h st).2).
Proof.
  intros Hone. unfold dispatch. rewrite Hone. simpl.
  destruct (run_handler hd h st) as [[[]|e] st1]; reflexivity.
Qed.

(** [sortable] on a handle that carries no listener yet leaves it draggable
    and with exactly the five listeners, in the order of the source.  On a
    handle wired so, each native event runs one handler: drag-start and
    drag-enter their own, drag-over [preventDefault], and drag-end and drop
    both [removeTargetClass]; what the handler throws is what the event
    reports. *)
Theorem events_run_their_handler (st : State) (node h : Node)
    (sel targetClass name : value) :
  handle st node sel = Some h →
  listeners_on st h = [] →
  let st1 := (sortable node sel targetClass name st).2 in
  listeners_on st1 h = plugin_listeners ∧
  draggable st1 !! h = Some true ∧
  ∀ s, listeners_on s h = plugin_listeners →
    dispatch Dragstart h s
      = (reported (dragstartHandler h s).1, (dragstartHandler h s).2) ∧
    dispatch Dragenter h s
      = (reported (dragenterHandler h s).1, (dragenterHandler h s).2) ∧
    dispatch Dragover h s
      = (reported (preventDefault h s).1, (preventDefault h s).2) ∧
    dispatch Dragend h s
      = (reported (removeTargetClass h s).1, (removeTargetClass h s).2) ∧
    dispatch Drop h s
      = (reported (removeTargetClass h s).1, (removeTargetClass h s).2).
Proof.
  intros Hh Hnone st1.
  assert (H1 : st1 = wired h (registered node (Some h) targetClass name st))
    by (unfold st1; rewrite sortable_run, Hh; reflexivity).
  split; [rewrite H1; apply wired_fresh; exact Hnone|]. split.
  - rewrite H1. unfold wired. rewrite !add_listener_draggable.
    simpl. apply lookup_insert_eq.
  - intros s Hs.
    repeat split.
    + apply (dispatch_single Dragstart H_dragstartHandler). rewrite Hs. reflexivity.
    + apply (dispatch_single Dragenter H_dragenterHandler). rewrite Hs. reflexivity.
    + apply (dispatch_single Dragover H_preventDefault). rewrite Hs. reflexivity.
    + apply (dispatch_single Dragend H_removeTargetClass). rewrite Hs. reflexivity.
    + apply (dispatch_single Drop H_removeTargetClass). rewrite Hs. reflexivity.
Qed.

Lemma events_run_their_handler_witness :
  let st := page (VStr "a") (VStr "b") (VStr "c") (VStr "d") in
  let st1 := (sortable 10%nat VUndefined VUndefined VUndefined st).2 in
  listeners_on st1 10%nat = plugin_listeners ∧
  draggable st1 !! 10%nat = Some true ∧
  dispatch Dragstart 10%nat st1
    = (reported (dragstartHandler 10%nat st1).1, (dragstartHandler 10%nat st1).2).
Proof.
  intros st st1.
  destruct (events_run_their_handler st 10%nat 10%nat VUndefined VUndefined
              VUndefined eq_refl eq_refl) as (Hl & Hd & Hev).
  split; [exact Hl|]. split; [exact Hd|].
  exact (proj1 (Hev st1 Hl)).
Defined.

(** ** A drag-start over an older session *)

(** A drag-start that passes the array check replaces whatever session
    there was by the context of its element, marks the drag payload and
    stops the propagation.  It changes nothing else: an element left
    highlighted by a gesture that never ended keeps its class. *)
Theorem dragstart_overwrites_session (st : State) (this me : Node) (c : Ctx) :
  resolve st this = Some me →
  getContext st !! me = Some c →
  Array_isArray (value_at st (c_ractive c) (c_resolve_up c)) = true →
  ∃ st',
    dragstartHandler this st = (Ok tt, st') ∧
    session st' = (Some (c_ractive c), Some (c_resolve c), Some (c_resolve_up c)) ∧
    calls st' = (calls st ++ [SetData "foo" (VBool true); StopPropagation])%list ∧
    classList st' = classList st ∧
    host_kept st st'.
Proof.
  intros Hres Hctx Harr. exists (started c st).
  split; [apply (dragstart_ok st this me c); assumption|].
  repeat split. simpl. rewrite <- app_assoc. reflexivity.
Qed.

Lemma dragstart_overwrites_session_witness :
  let st := (dragenterHandler 10%nat
               (dragstartHandler 10%nat
                  (page_ready (VStr "a") (VStr "b") (VStr "c") (VStr "d"))).2).2 in
  ∃ st',
    dragstartHandler 21%nat st = (Ok tt, st') ∧
    session st' = (Some 0%nat, Some "other.1", Some "other") ∧
    calls st' = (calls st ++ [SetData "foo" (VBool true); StopPropagation])%list ∧
    classList st' = classList st ∧
    host_kept st st'.
Proof.
  exact (dragstart_overwrites_session
           (dragenterHandler 10%nat
              (dragstartHandler 10%nat
                 (page_ready (VStr "a") (VStr "b") (VStr "c") (VStr "d"))).2).2
           21%nat 21%nat (item_context 0%nat "other" 1%nat)
           eq_refl eq_refl eq_refl).
Defined.

(** ** A selector the DOM refuses *)

(** When the selector given does not parse, [sortable] throws the
    [SyntaxError] of [querySelector] at once: no entry is pushed, no class
    recorded, the event name is not overwritten, no listener registered;
    the state is the one it was called in.  The empty string is such a
    selector on every page, and so is what ToString makes of the number
    5. *)
Theorem sortable_refused_selector (st : State) (node : Node)
    (sel targetClass name : value) :
  refuses st sel = true →
  sortable node sel targetClass name st = (Throw SyntaxError, st) ∧
  handle st node sel = None ∧
  refuses st (VStr "") = true ∧
  refuses st (VNum 5) = true.
Proof.
  intros Hsel.
  assert (Hh : handle st node sel = None).
  { unfold handle, refuses in *. destruct (not_nullish sel); [|discriminate Hsel].
    simpl in Hsel. rewrite Hsel. reflexivity. }
  split; [rewrite sortable_run, Hh, Hsel; reflexivity|].
  split; [exact Hh|]. split; reflexivity.
Qed.

Lemma sortable_refused_selector_witness :
  let st := page_ready (VStr "a") (VStr "b") (VStr "c") (VStr "d") in
  sortable 40%nat (VStr "") (VStr "over") (VStr "moved") st = (Throw SyntaxError, st) ∧
  handle st 40%nat (VStr "") = None ∧
  refuses st (VStr "") = true ∧
  refuses st (VNum 5) = true.
Proof.
  exact (sortable_refused_selector
           (page_ready (VStr "a") (VStr "b") (VStr "c") (VStr "d"))
           40%nat (VStr "") (VStr "over") (VStr "moved") eq_refl).
Defined.

(** ** A class the DOM refuses *)

(** [classList] checks the token it is given before it touches the list.
    When the class recorded for an element is empty or has white space in
    it, a drag-enter on the element's own position throws the exception of
    [classList.add] after [preventDefault], and a drag-end or drop on it
    throws the exception of [classList.remove] before [stopPropagation] is
    reached: no class is added or removed and nothing else changes. *)
Theorem refused_class_token (st : State) (this me : Node) (c : Ctx) (e : exn) :
  resolve st this = Some me →
  getContext st !! me = Some c →
  ractive st = Some (c_ractive c) →
  sourceArray st = Some (c_resolve_up c) →
  sourceKeypath st = Some (c_resolve c) →
  token_error (target_token st me) = Some e →
  dragenterHandler this st = (Throw e, ignored st) ∧
  removeTargetClass this st = (Throw e, st) ∧
  (e = SyntaxError ∨ e = InvalidCharacterError).
Proof.
  intros Hres Hctx Hr Ha Hk Htok.
  split; [|split].
  - rewrite (dragenter_same_position st this me c) by assumption.
    rewrite Htok. reflexivity.
  - rewrite (removeTargetClass_run st this me Hres), Htok. reflexivity.
  - apply (token_error_dom (target_token st me)). exact Htok.
Qed.

Lemma refused_class_token_witness :
  let st := (dragstartHandler 10%nat
               (sortable 10%nat VUndefined (VStr "drop target") VUndefined
                  (page (VStr "a") (VStr "b") (VStr "c") (VStr "d"))).2).2 in
  dragenterHandler 10%nat st = (Throw InvalidCharacterError, ignored st) ∧
  removeTargetClass 10%nat st = (Throw InvalidCharacterError, st) ∧
  (InvalidCharacterError = SyntaxError ∨
   InvalidCharacterError = InvalidCharacterError).
Proof.
  exact (refused_class_token
           (dragstartHandler 10%nat
              (sortable 10%nat VUndefined (VStr "drop target") VUndefined
                 (page (VStr "a") (VStr "b") (VStr "c") (VStr "d"))).2).2
           10%nat 10%nat (item_context 0%nat "list" 0%nat) InvalidCharacterError
           eq_refl eq_refl eq_refl eq_refl eq_refl eq_refl).
Defined.

(** ** The event name after the host has rendered *)

Lemma last_cons_default {A : Type} (x : A) (l : list A) (d : A) :
  default d (last (x :: l)) = default x (last l).
Proof.
  destruct l as [|y l]; [reflexivity|].
  rewrite last_cons_cons. destruct (last (y :: l)) eqn:E; [reflexivity|].
  apply last_None in E. discriminate E.
Qed.

(** Rendering overwrites the event name.  When the host, rendering again,
    decorates elements without a selector, the event name the module holds
    afterwards is the one given for the element decorated last, and the
    one it held before when no element was decorated. *)
Theorem render_refreshes_event_name (steps : list render_step) (st : State) :
  (∀ node sel targetClass name,
     Attached node sel targetClass name ∈ steps → not_nullish sel = false) →
  eventNameToFire (run_render steps st)
  = default (eventNameToFire st) (last (attached_names steps)).
Proof.
  revert st. induction steps as [|s steps IH]; intros st Hsel; [reflexivity|].
  assert (Hrest : ∀ node sel targetClass name,
            Attached node sel targetClass name ∈ steps → not_nullish sel = false).
  { intros node sel targetClass name Hin.
    apply (Hsel node sel targetClass name). apply elem_of_cons. right. exact Hin. }
  change (run_render (s :: steps) st) with (run_render steps (render_one s st)).
  rewrite (IH _ Hrest).
  destruct s as [h|node selector found|node sel targetClass name|n c];
    cbn [render_one attached_names omap list_omap].
  - rewrite teardown_run. cbn [snd].
    destruct (unwired_unchanged h st) as (_ & _ & _ & _ & _ & _ & He & _).
    rewrite He. reflexivity.
  - reflexivity.
  - assert (Hnull : not_nullish sel = false).
    { apply (Hsel node sel targetClass name). apply elem_of_cons. left. reflexivity. }
    rewrite Hnull.
    rewrite sortable_sets_event_name by (unfold refuses; rewrite Hnull; reflexivity).
    fold (attached_names steps). symmetry. apply last_cons_default.
  - reflexivity.
Qed.

Lemma render_refreshes_event_name_witness :
  eventNameToFire
    (run_render
       [Detached 10%nat;
        Attached 24%nat VUndefined VUndefined (VStr "moved");
        Attached 25%nat VUndefined VUndefined (VStr "other-moved")]
       (page_ready (VStr "a") (VStr "b") (VStr "c") (VStr "d")))
  = VStr "other-moved".
Proof.
  refine (render_refreshes_event_name
            [Detached 10%nat;
             Attached 24%nat VUndefined VUndefined (VStr "moved");
             Attached 25%nat VUndefined VUndefined (VStr "other-moved")]
            (page_ready (VStr "a") (VStr "b") (VStr "c") (VStr "d")) _).
  intros node sel targetClass name Hin.
  rewrite !elem_of_cons, elem_of_nil in Hin.
  destruct Hin as [Heq|[Heq|[Heq|[]]]]; inversion Heq; reflexivity.
Defined.

(** A reorder notifies at most once, after its two splices.  The
    notification is fired when, and only when, the module holds an event
    name once the second splice has returned, and it goes out under that
    name, with the context of the entered element and the segments of the
    target keypath. *)
Theorem notification_after_reorder (st : State) (this me : Node) (c : Ctx)
    (items : list value) :
  resolve st this = Some me →
  getContext st !! me = Some c →
  ractive st = Some (c_ractive c) →
  sourceArray st = Some (c_resolve_up c) →
  Some (c_resolve c) ≠ sourceKeypath st →
  value_at st (c_ractive c) (c_resolve_up c) = VArr items →
  ∃ st',
    dragenterHandler this st = (Ok tt, st') ∧
    List.filter is_fire (calls st') =
      (List.filter is_fire (calls st) ++
       (if not_nullish (eventNameToFire st')
        then [Fire (c_ractive c) (eventNameToFire st') c (splitKeypath (c_resolve c))]
        else []))%list.
Proof.
  intros Hres Hctx Hr Ha Hne Harr.
  exists (reordered c (sourceKeypath st) items st).
  split; [apply (dragenter_reorder_run st this me c items); assumption|].
  destruct (reordered_frame c (sourceKeypath st) items st Harr)
    as (_ & _ & _ & _ & _ & _ & Hcalls).
  rewrite Hcalls. rewrite !List.filter_app. simpl.
  destruct (not_nullish (eventNameToFire _)); reflexivity.
Qed.

Lemma notification_after_reorder_witness :
  let st := (dragstartHandler 10%nat
               (page_named (VStr "a") (VStr "b") (VStr "c") (VStr "d")
                  (VStr "other-moved"))).2 in
  ∃ st',
    dragenterHandler 12%nat st = (Ok tt, st') ∧
    List.filter is_fire (calls st') =
      (List.filter is_fire (calls st) ++
       (if not_nullish (eventNameToFire st')
        then [Fire 0%nat (eventNameToFire st') (item_context 0%nat "list" 2%nat)
                (splitKeypath "list.2")]
        else []))%list.
Proof.
  refine (notification_after_reorder
            (dragstartHandler 10%nat
               (page_named (VStr "a") (VStr "b") (VStr "c") (VStr "d")
                  (VStr "other-moved"))).2
            12%nat 12%nat (item_context 0%nat "list" 2%nat)
            [VStr "a"; VStr "b"; VStr "c"; VStr "d"] _ _ _ _ _ _).
  all: vm_compute; first [reflexivity | discriminate].
Defined.

(** ** Entering an element again *)

(** On a page the host renders, the element entered has moved when the
    reorder is done: after a drag from index 0 over the element of index 2
    the array is [b; c; a; d], the dragged member is at index 2 and the
    element entered is the one of index 1.  A second drag-enter on that
    element is therefore no entry of the own position: it moves the member
    again, to index 1; and a drag-enter on the element that was at index 1
    and is now at index 0 puts the member back in front. *)
Theorem entering_again_moves_again (a b c d : value) :
  let st1 := (drag_and_enter 10%nat 12%nat (page_named a b c d VUndefined)).2 in
  value_at st1 0%nat "list" = VArr [b; c; a; d] ∧
  sourceKeypath st1 = Some "list.2" ∧
  getContext st1 !! 12%nat = Some (item_context 0%nat "list" 1%nat) ∧
  getContext st1 !! 11%nat = Some (item_context 0%nat "list" 0%nat) ∧
  value_at (dragenterHandler 12%nat st1).2 0%nat "list" = VArr [b; a; c; d] ∧
  value_at (dragenterHandler 11%nat st1).2 0%nat "list" = VArr [a; b; c; d].
Proof. repeat split; vm_compute; reflexivity. Qed.
